(** * astrbot_plugin_bot_selfie: the core of the plugin, embedded and verified

    A shallow embedding of [core/rate_limiter.py], [core/config.py] and
    [core/api_client.py], followed by the properties their specification
    states about them.

    Conventions of the embedding.
    - A Python [str] is a [string], one [ascii] per code point, for text
      whose code points lie in U+0000..U+00FF; [str.strip], [str.lower] and
      the regular expression class [\d] are given on that range exactly as
      CPython defines them.  The fixed messages of the plugin contain CJK
      text: they are carried as the UTF-8 bytes of the source file and are
      only ever concatenated.
    - A Python [float] holding a time in seconds is a rational [Q]: the
      arithmetic of the rate limiter is read as exact arithmetic.
    - A Python [int] is a [Z].
    - A value of unknown shape (configuration, decoded JSON) is a [PyVal].
    - A call that may raise returns an [Outcome].  [check_and_consume]
      returns the new limiter next to its outcome; [generate_image] runs in a
      small state monad over the client, the log of its effects and the
      clock, with the library calls answered by an environment. *)

From Stdlib Require Import ZArith QArith Qround String Ascii List Lia Lqa DecimalString.
From stdpp Require Import gmap strings list.

#[local] Set Warnings "-register-all".

Open Scope string_scope.
Open Scope list_scope.

(** ** Python values and exceptions *)

(** The exceptions the three modules can meet.  The first four are raised
    by the interpreter itself; [LibraryError] stands for an exception raised
    by a library call (aiohttp, the file system, base64), named by its class
    and carrying its text. *)
Inductive PyExc : Type :=
| ValueError
| TypeError
| AttributeError
| KeyError
| LibraryError (cls text : string).

Inductive Outcome (A : Type) : Type :=
| Return (a : A)
| Raise (e : PyExc).
Arguments Return {A} a.
Arguments Raise {A} e.

(** [str(n)] for an [int]. *)
Definition str_of_int (z : Z) : string := NilZero.string_of_int (Z.to_int z).

(** [x < y] on floats. *)
Definition Qltb (x y : Q) : bool := negb (Qle_bool y x).

(** [int(x)] for a float [x]: truncation toward zero. *)
Definition int_of_float (x : Q) : Z := Z.quot (Qnum x) (Z.pos (Qden x)).

(** [min(l)] for a list of floats: the first least element, [ValueError] on
    the empty list. *)
Definition py_min (l : list Q) : Outcome Q :=
  match l with
  | [] => Raise ValueError
  | x :: r => Return (fold_left (fun m t => if Qltb t m then t else m) r x)
  end.

(** A value of unknown shape: what a configuration file or a JSON body
    decodes to.  A [dict] with string keys is an association list read by
    its first binding of a key. *)
Inductive PyVal : Type :=
| PNone
| PBool (b : bool)
| PInt (z : Z)
| PFloat (q : Q)
| PStr (s : string)
| PList (l : list PyVal)
| PDict (d : list (string * PyVal)).

(** [bool(v)]. *)
Definition truthy (v : PyVal) : bool :=
  match v with
  | PNone => false
  | PBool b => b
  | PInt z => negb (z =? 0)%Z
  | PFloat q => negb (Qeq_bool q 0)
  | PStr s => negb (s =? "")%string
  | PList l => match l with [] => false | _ => true end
  | PDict d => match d with [] => false | _ => true end
  end.

(** [v == s] for a string literal [s]. *)
Definition py_eq_str (v : PyVal) (s : string) : bool :=
  match v with
  | PStr s' => (s' =? s)%string
  | _ => false
  end.

Fixpoint dict_lookup (d : list (string * PyVal)) (key : string) : option PyVal :=
  match d with
  | [] => None
  | (k, v) :: d' => if (k =? key)%string then Some v else dict_lookup d' key
  end.

(** [d.pop(key, None)], for its effect on [d]. *)
Definition dict_pop (d : list (string * PyVal)) (key : string) : list (string * PyVal) :=
  List.filter (fun kv => negb (fst kv =? key)%string) d.

(** [key in d]. *)
Definition dict_has (d : list (string * PyVal)) (key : string) : bool :=
  match dict_lookup d key with Some _ => true | None => false end.

(** [d.get(key, default)] for a [dict] [d]. *)
Definition dict_get (d : list (string * PyVal)) (key : string) (default : PyVal) : PyVal :=
  match dict_lookup d key with Some v => v | None => default end.

(** [v.get(key, default)] for any [v]: only a [dict] has the method. *)
Definition py_get (v : PyVal) (key : string) (default : PyVal) : Outcome PyVal :=
  match v with
  | PDict d => Return (dict_get d key default)
  | _ => Raise AttributeError
  end.

Definition bind {A B} (m : Outcome A) (f : A -> Outcome B) : Outcome B :=
  match m with
  | Return a => f a
  | Raise e => Raise e
  end.

Declare Scope outcome_scope.
Delimit Scope outcome_scope with outcome.
Notation "x <- m ;; k" := (bind m (fun x => k))
  (at level 100, m at next level, right associativity) : outcome_scope.

(** ** Python strings *)

(** [c.isspace()] for a code point below 256. *)
Definition isspace (c : ascii) : bool :=
  let n := N_of_ascii c in
  ((9 <=? n) && (n <=? 13) || (28 <=? n) && (n <=? 31)
   || (n =? 32) || (n =? 133) || (n =? 160))%N.

(** [\d] of the [re] module on [str], for a code point below 256. *)
Definition isdecimal (c : ascii) : bool :=
  let n := N_of_ascii c in ((48 <=? n) && (n <=? 57))%N.

(** [c.lower()] for a code point below 256: A-Z and the capital letters
    of Latin-1 (U+00C0..U+00DE but the multiplication sign) move by 32. *)
Definition lower_char (c : ascii) : ascii :=
  let n := N_of_ascii c in
  if ((65 <=? n) && (n <=? 90) || (192 <=? n) && (n <=? 222) && negb (n =? 215))%N
  then ascii_of_N (n + 32) else c.

Fixpoint lower (s : string) : string :=
  match s with
  | EmptyString => EmptyString
  | String c r => String (lower_char c) (lower r)
  end.

(** [s.lstrip()] and [s.rstrip()] generalised to a set of characters. *)
Fixpoint lstrip_of (p : ascii -> bool) (s : string) : string :=
  match s with
  | EmptyString => EmptyString
  | String c r => if p c then lstrip_of p r else s
  end.

Fixpoint rstrip_of (p : ascii -> bool) (s : string) : string :=
  match s with
  | EmptyString => EmptyString
  | String c r =>
      match rstrip_of p r with
      | EmptyString => if p c then EmptyString else String c EmptyString
      | r' => String c r'
      end
  end.

(** [s.strip()]. *)
Definition strip (s : string) : string := rstrip_of isspace (lstrip_of isspace s).

(** [s.replace(c, '')] for a one-character [c]. *)
Fixpoint remove_char (c : ascii) (s : string) : string :=
  match s with
  | EmptyString => EmptyString
  | String a r => if Ascii.eqb a c then remove_char c r else String a (remove_char c r)
  end.

(** The longest prefix of [s] made of characters in [p], and the rest. *)
Fixpoint span (p : ascii -> bool) (s : string) : string * string :=
  match s with
  | EmptyString => (EmptyString, EmptyString)
  | String c r =>
      if p c then let '(a, b) := span p r in (String c a, b) else (EmptyString, s)
  end.

(** [sub in s] for strings. *)
Fixpoint contains (sub s : string) : bool :=
  String.prefix sub s ||
  match s with
  | EmptyString => false
  | String _ r => contains sub r
  end.

(** [s.split(sep)[-1]] when [sep] occurs in [s]: what follows the last
    occurrence of [sep] ([sep] is not empty and does not overlap itself). *)
Fixpoint after_last (sep s : string) : option string :=
  match s with
  | EmptyString => None
  | String _ r =>
      match after_last sep r with
      | Some t => Some t
      | None =>
          if String.prefix sep s
          then Some (String.substring (String.length sep)
                       (String.length s - String.length sep) s)
          else None
      end
  end.

(** The first character of [s] is white space; the last one is. *)
Definition starts_with_space (s : string) : bool :=
  match s with
  | String c _ => isspace c
  | EmptyString => false
  end.

Fixpoint ends_with_space (s : string) : bool :=
  match s with
  | EmptyString => false
  | String c EmptyString => isspace c
  | String _ r => ends_with_space r
  end.

(** [s] without its white space. *)
Fixpoint without_whitespace (s : string) : string :=
  match s with
  | EmptyString => EmptyString
  | String c r => if isspace c then without_whitespace r else String c (without_whitespace r)
  end.

Fixpoint all_chars (p : ascii -> bool) (s : string) : bool :=
  match s with
  | EmptyString => true
  | String c r => p c && all_chars p r
  end.

(** ** core/config.py *)

Module config.

Record ConfigLoader : Type := mkConfigLoader {
  config : list (string * PyVal);
  provider_id : PyVal;
  api_type : PyVal;
  model : PyVal;
  api_keys : list string;
  endpoint_id : PyVal;
  api_base : PyVal;
  default_size : PyVal;
  watermark : PyVal;
  optimize_prompt_mode : PyVal;
  resolution : PyVal;
  aspect_ratio : PyVal;
  persona_reference_image : PyVal;
  enable_auto_outfit : PyVal;
  max_attempts_per_key : PyVal;
  enable_smart_retry : PyVal;
  total_timeout : PyVal;
  rate_limit_enabled : PyVal;
  rate_limit_max_requests : PyVal;
  rate_limit_period : PyVal
}.

(** Lines 29-34: the first entry of [provider_overrides] that is a [dict]
    whose [__template_key] is ['doubao'], without that key; [{}] when there
    is none or [provider_overrides] is not a list. *)
Fixpoint find_doubao (overrides : list PyVal) : list (string * PyVal) :=
  match overrides with
  | [] => []
  | PDict override :: rest =>
      if py_eq_str (dict_get override "__template_key" PNone) "doubao"
      then dict_pop override "__template_key"
      else find_doubao rest
  | _ :: rest => find_doubao rest
  end.

Definition doubao_settings_of (provider_overrides : PyVal) : list (string * PyVal) :=
  match provider_overrides with
  | PList overrides => find_doubao overrides
  | _ => []
  end.

(** Line 41: [[k.strip() for k in api_keys if isinstance(k, str) and k.strip()]]. *)
Fixpoint clean_keys (api_keys : list PyVal) : list string :=
  match api_keys with
  | [] => []
  | PStr k :: rest =>
      if negb (strip k =? "")%string then strip k :: clean_keys rest else clean_keys rest
  | _ :: rest => clean_keys rest
  end.

(** Lines 37-45. *)
Definition load_api_keys (doubao_settings : list (string * PyVal)) : list string :=
  if dict_has doubao_settings "api_keys" then
    let got := dict_get doubao_settings "api_keys" PNone in
    let api_keys := if truthy got then got else PList [] in
    match api_keys with
    | PList l => clean_keys l
    | _ => []
    end
  else
    match dict_lookup doubao_settings "api_key" with
    | Some (PStr api_key) =>
        let key := strip api_key in
        if negb (key =? "")%string then [key] else []
    | _ => []
    end.

(** [ConfigLoader(config)]: [__init__] followed by [_load_config]. *)
Definition _load_config (config : list (string * PyVal)) : Outcome ConfigLoader :=
  (let api_settings := dict_get config "api_settings" (PDict []) in
   provider_id <- py_get api_settings "provider_id" (PStr "") ;;
   api_type <- py_get api_settings "api_type" (PStr "doubao") ;;
   model <- py_get api_settings "model" (PStr "") ;;
   provider_overrides <- py_get api_settings "provider_overrides" (PList []) ;;
   let doubao_settings := doubao_settings_of provider_overrides in
   let api_keys := load_api_keys doubao_settings in
   let other (field : string) (default : PyVal) : PyVal :=
     if truthy (PDict doubao_settings)
     then dict_get doubao_settings field default else default in
   let endpoint_id := other "endpoint_id" (PStr "doubao-seedream-4-5-251128") in
   let api_base := other "api_base" (PStr "https://ark.cn-beijing.volces.com") in
   let default_size := other "default_size" (PStr "2K") in
   let watermark := other "watermark" (PBool false) in
   let optimize_prompt_mode := other "optimize_prompt_mode" (PStr "standard") in
   let image_generation_settings := dict_get config "image_generation_settings" (PDict []) in
   resolution <- py_get image_generation_settings "resolution" (PStr "1K") ;;
   aspect_ratio <- py_get image_generation_settings "aspect_ratio" (PStr "1:1") ;;
   let persona_settings := dict_get config "persona_settings" (PDict []) in
   persona_reference_image <- py_get persona_settings "persona_reference_image" (PList []) ;;
   enable_auto_outfit <- py_get persona_settings "enable_auto_outfit" (PBool true) ;;
   let retry_settings := dict_get config "retry_settings" (PDict []) in
   max_attempts_per_key <- py_get retry_settings "max_attempts_per_key" (PInt 3) ;;
   enable_smart_retry <- py_get retry_settings "enable_smart_retry" (PBool true) ;;
   total_timeout <- py_get retry_settings "total_timeout" (PInt 120) ;;
   let rate_limit_settings := dict_get config "rate_limit_settings" (PDict []) in
   rate_limit_enabled <- py_get rate_limit_settings "enabled" (PBool true) ;;
   rate_limit_max_requests <- py_get rate_limit_settings "max_requests" (PInt 5) ;;
   rate_limit_period <- py_get rate_limit_settings "period_seconds" (PInt 60) ;;
   Return (mkConfigLoader config provider_id api_type model api_keys
             endpoint_id api_base default_size watermark optimize_prompt_mode
             resolution aspect_ratio persona_reference_image enable_auto_outfit
             max_attempts_per_key enable_smart_retry total_timeout
             rate_limit_enabled rate_limit_max_requests rate_limit_period))%outcome.

(** The settings of lines 13-23 and 57-75 when nothing is configured. *)
Definition defaults : ConfigLoader :=
  mkConfigLoader [] (PStr "") (PStr "doubao") (PStr "") []
    (PStr "doubao-seedream-4-5-251128") (PStr "https://ark.cn-beijing.volces.com")
    (PStr "2K") (PBool false) (PStr "standard")
    (PStr "1K") (PStr "1:1") (PList []) (PBool true)
    (PInt 3) (PBool true) (PInt 120)
    (PBool true) (PInt 5) (PInt 60).

(** A configuration whose only content is one provider override for
    ['doubao'] with the given fields. *)
Definition with_doubao_override (fields : list (string * PyVal)) : list (string * PyVal) :=
  [("api_settings",
    PDict [("provider_overrides",
            PList [PDict (("__template_key", PStr "doubao") :: fields)])])].

(** A section of the configuration, when present, is a [dict]. *)
Definition section_is_dict (config : list (string * PyVal)) (name : string) : bool :=
  match dict_lookup config name with
  | None | Some (PDict _) => true
  | Some _ => false
  end.

Definition sections : list string :=
  ["api_settings"; "image_generation_settings"; "persona_settings";
   "retry_settings"; "rate_limit_settings"].

(** The elements of a list that are strings. *)
Fixpoint strs (l : list PyVal) : list string :=
  match l with
  | [] => []
  | PStr k :: rest => k :: strs rest
  | _ :: rest => strs rest
  end.

(** A key as the loader leaves it: not empty, no white space at either end. *)
Definition clean_key (k : string) : Prop :=
  k <> "" /\ starts_with_space k = false /\ ends_with_space k = false.

End config.

(** ** core/rate_limiter.py *)

Module rate_limiter.

Record RateLimiter : Type := mkRateLimiter {
  max_requests : Z;
  period_seconds : Z;
  requests : gmap string (list Q)
}.

Definition __init__ (max_requests period_seconds : Z) : RateLimiter :=
  mkRateLimiter max_requests period_seconds ∅.

Definition set_requests (self : RateLimiter) (r : gmap string (list Q)) : RateLimiter :=
  mkRateLimiter (max_requests self) (period_seconds self) r.

(** The entries of [l] the comprehension of line 19 keeps at [current_time]. *)
Definition unexpired (period_seconds : Z) (current_time : Q) (l : list Q) : list Q :=
  List.filter (fun t => Qltb (current_time - t) (inject_Z period_seconds)) l.

Definition too_frequent_message (remaining_time : Q) : string :=
  "请求过于频繁，请等待 " +:+ str_of_int (int_of_float remaining_time) +:+ " 秒后再试".

(** [check_and_consume(key)], with [current_time] the value [time.time()]
    returns at line 13. *)
Definition check_and_consume (self : RateLimiter) (key : string) (current_time : Q)
  : RateLimiter * Outcome (bool * option string) :=
  (* if key not in self.requests: self.requests[key] = [] *)
  let requests1 :=
    match requests self !! key with
    | None => <[key := []]> (requests self)
    | Some _ => requests self
    end in
  (* self.requests[key] = [t for t in self.requests[key] if ...] *)
  let kept := unexpired (period_seconds self) current_time (default [] (requests1 !! key)) in
  let requests2 := <[key := kept]> requests1 in
  if (max_requests self <=? Z.of_nat (length kept))%Z then
    match py_min kept with
    | Raise e => (set_requests self requests2, Raise e)
    | Return oldest =>
        let remaining_time := (inject_Z (period_seconds self) - (current_time - oldest))%Q in
        (set_requests self requests2,
         Return (false, Some (too_frequent_message remaining_time)))
    end
  else
    (* self.requests[key].append(current_time) *)
    (set_requests self (<[key := kept ++ [current_time]]> requests2),
     Return (true, None)).

(** The timestamps recorded for [key] ([[]] for a key never seen). *)
Definition window (self : RateLimiter) (key : string) : list Q :=
  default [] (requests self !! key).

(** Successive calls for one key at the given times: the final limiter and
    the outcome of each call, in order. *)
Fixpoint calls (self : RateLimiter) (key : string) (times : list Q)
  : RateLimiter * list (Outcome (bool * option string)) :=
  match times with
  | [] => (self, [])
  | t :: times' =>
      let '(self1, o) := check_and_consume self key t in
      let '(self2, os) := calls self1 key times' in
      (self2, o :: os)
  end.

Definition allowed (o : Outcome (bool * option string)) : bool :=
  match o with
  | Return (true, _) => true
  | _ => false
  end.

Definition rejected (o : Outcome (bool * option string)) : bool :=
  match o with
  | Return (false, _) => true
  | _ => false
  end.

(** The clock does not run backwards over the list of readings. *)
Fixpoint nondecreasing (l : list Q) : bool :=
  match l with
  | [] => true
  | x :: r => forallb (fun y => Qle_bool x y) r && nondecreasing r
  end.

End rate_limiter.

(** ** core/api_client.py *)

Module api_client.

(** [self.session]: [None], an open session, a closed one. *)
Inductive Session : Type := NoSession | OpenSession | ClosedSession.

Record ApiClient : Type := mkApiClient {
  api_keys : list string;
  api_base : string;
  endpoint_id : string;
  session : Session
}.

Definition __init__ (api_keys : list string) (api_base endpoint_id : string) : ApiClient :=
  mkApiClient api_keys
    (if (api_base =? "")%string then "https://ark.cn-beijing.volces.com" else api_base)
    endpoint_id NoSession.

(** *** [_map_resolution] *)

Definition in_3_5 (n : nat) : bool := (3 <=? n)%nat && (n <=? 5)%nat.

(** [re.match(r"^\d{3,5}x\d{3,5}$", s)] finds a match.  A run of digits
    followed by a character that is no digit can only be matched whole;
    [$] matches at the end of [s] and before a newline that ends [s]. *)
Definition re_match_wxh (s : string) : bool :=
  let '(w, after_w) := span isdecimal s in
  in_3_5 (String.length w) &&
  match after_w with
  | String "x" after_x =>
      let '(h, after_h) := span isdecimal after_x in
      in_3_5 (String.length h) &&
      ((after_h =? "")%string || (after_h =? String "010" "")%string)
  | _ => false
  end.

Definition normalize (raw : string) : string := remove_char " " (lower raw).

Definition _map_resolution (resolution model : string) : string :=
  if (resolution =? "")%string then "2K" else
  let raw := strip resolution in
  if (raw =? "")%string then "2K" else
  let normalized := normalize raw in
  let model_lower := if (model =? "")%string then "" else lower model in
  if re_match_wxh normalized then normalized
  else if (normalized =? "1k")%string || (normalized =? "1024")%string then "1K"
  else if (normalized =? "2k")%string || (normalized =? "2048")%string then "2K"
  else if (normalized =? "4k")%string || (normalized =? "4096")%string then "4K"
  else "2K".

(** The token the mapping works on: the input stripped, in lower case,
    without spaces. *)
Definition token (resolution : string) : string := normalize (strip resolution).

(** The mapping in the words of the specification, on the token: a
    WIDTHxHEIGHT token passes through, 1k/1024 give ["1K"], 2k/2048 give
    ["2K"], 4k/4096 give ["4K"], anything else gives ["2K"]. *)
Definition resolution_table (t : string) : string :=
  if re_match_wxh t then t
  else if (t =? "1k")%string || (t =? "1024")%string then "1K"
  else if (t =? "2k")%string || (t =? "2048")%string then "2K"
  else if (t =? "4k")%string || (t =? "4096")%string then "4K"
  else "2K".

(** A character of a WIDTHxHEIGHT token. *)
Definition wxh_char (c : ascii) : bool := isdecimal c || Ascii.eqb c "x".

(** *** The world [generate_image] runs in *)

Record Request : Type := mkRequest {
  url : string;
  headers : list (string * string);
  json_body : list (string * PyVal)
}.

(** What [session.post] hands back: the status, and what [response.text()]
    and [response.json()] do when awaited. *)
Record Response : Type := mkResponse {
  status : Z;
  text : Outcome string;
  json : Outcome PyVal
}.

(** The library calls of [api_client.py], as the environment answers them
    during one call of [generate_image]. *)
Record Env : Type := mkEnv {
  random_index : nat;                           (* random.choice picks this index *)
  path_exists : string -> bool;                 (* os.path.exists *)
  read_bytes : string -> Outcome string;        (* open(p, 'rb').read() *)
  splitext_ext : string -> string;              (* os.path.splitext(p)[1] *)
  b64encode : string -> string;                 (* base64.b64encode(b).decode('utf-8') *)
  b64decode : string -> Outcome string;         (* base64.b64decode *)
  post : Request -> Outcome Response;           (* session.post(url, headers=, json=) *)
  time_time : nat -> Q;                         (* the n-th reading of time.time() *)
  write_bytes : string -> string -> Outcome unit;  (* open(p, 'wb').write(b) *)
  str_exc : PyExc -> string                     (* str(e) *)
}.

Inductive Event : Type :=
| SessionCreated
| FileRead (path : string)
| Posted (request : Request)
| FileWritten (path data : string).

Record Sys : Type := mkSys {
  self : ApiClient;
  events : list Event;
  clock_reads : nat
}.

Definition M (A : Type) : Type := Sys -> Outcome A * Sys.

Definition ret {A} (a : A) : M A := fun s => (Return a, s).

Definition lift {A} (o : Outcome A) : M A := fun s => (o, s).

Definition mbind {A B} (m : M A) (f : A -> M B) : M B :=
  fun s =>
    match m s with
    | (Return a, s') => f a s'
    | (Raise e, s') => (Raise e, s')
    end.

(** [try: body except Exception as e: handler(e)]. *)
Definition try_except {A} (body : M A) (handler : PyExc -> M A) : M A :=
  fun s =>
    match body s with
    | (Return a, s') => (Return a, s')
    | (Raise e, s') => handler e s'
    end.

Definition emit (e : Event) : M unit :=
  fun s => (Return tt, mkSys (self s) (events s ++ [e]) (clock_reads s)).

Definition get_self : M ApiClient := fun s => (Return (self s), s).

Definition set_session (x : Session) : M unit :=
  fun s =>
    (Return tt,
     mkSys (mkApiClient (api_keys (self s)) (api_base (self s)) (endpoint_id (self s)) x)
       (events s) (clock_reads s)).

Definition read_clock (env : Env) : M Q :=
  fun s => (Return (time_time env (clock_reads s)),
            mkSys (self s) (events s) (S (clock_reads s))).

Declare Scope sys_scope.
Delimit Scope sys_scope with sys.
Notation "x <- m ;; k" := (mbind m (fun x => k))
  (at level 100, m at next level, right associativity) : sys_scope.

(** [x in v] for a string [x]. *)
Definition py_in (x : string) (v : PyVal) : Outcome bool :=
  match v with
  | PDict d => Return (dict_has d x)
  | PList l => Return (existsb (fun y => py_eq_str y x) l)
  | PStr s => Return (contains x s)
  | _ => Raise TypeError
  end.

(** [v[x]] for a string [x]. *)
Definition py_getitem (v : PyVal) (x : string) : Outcome PyVal :=
  match v with
  | PDict d => match dict_lookup d x with Some y => Return y | None => Raise KeyError end
  | _ => Raise TypeError
  end.

Fixpoint dict_keys (d : list (string * PyVal)) : list string :=
  match d with
  | [] => []
  | (k, _) :: d' => k :: List.filter (fun k' => negb (k' =? k)%string) (dict_keys d')
  end.

Fixpoint chars (s : string) : list PyVal :=
  match s with
  | EmptyString => []
  | String c r => PStr (String c EmptyString) :: chars r
  end.

(** The items [for item in v] goes through. *)
Definition py_iter (v : PyVal) : Outcome (list PyVal) :=
  match v with
  | PList l => Return l
  | PDict d => Return (List.map PStr (dict_keys d))
  | PStr s => Return (chars s)
  | _ => Raise TypeError
  end.

(** *** [_get_session], [close] *)

Definition _get_session : M Session :=
  (me <- get_self ;;
   match session me with
   | OpenSession => ret OpenSession
   | _ => _ <- emit SessionCreated ;; _ <- set_session OpenSession ;; ret OpenSession
   end)%sys.

Definition close : M unit :=
  (me <- get_self ;;
   match session me with
   | OpenSession => set_session ClosedSession
   | _ => ret tt
   end)%sys.

(** *** [_save_base64_image] *)

Definition _save_base64_image (env : Env) (b64_data : PyVal) : M string :=
  try_except
    (b64 <- lift match b64_data with
                 | PStr s =>
                     Return (if String.prefix "data:" s
                             then default s (after_last ";base64," s) else s)
                 | _ => Raise AttributeError
                 end ;;
     image_data <- lift (b64decode env b64) ;;
     now <- read_clock env ;;
     let timestamp := int_of_float (now * 1000) in
     let image_path := "selfie_" +:+ str_of_int timestamp +:+ ".png" in
     _ <- lift (write_bytes env image_path image_data) ;;
     _ <- emit (FileWritten image_path image_data) ;;
     ret image_path)%sys
    (fun _ => ret "").

(** *** [generate_image] *)

(** Lines 111-119: the loop over [data['data']]. *)
Fixpoint collect_image_urls (env : Env) (items image_urls : list PyVal) : M (list PyVal) :=
  match items with
  | [] => ret image_urls
  | item :: rest =>
      (has_url <- lift (py_in "url" item) ;;
       if has_url : bool then
         u <- lift (py_getitem item "url") ;;
         collect_image_urls env rest (image_urls ++ [u])
       else
         has_b64 <- lift (py_in "b64_json" item) ;;
         if has_b64 : bool then
           b <- lift (py_getitem item "b64_json") ;;
           image_path <- _save_base64_image env b ;;
           if negb (image_path =? "")%string
           then collect_image_urls env rest (image_urls ++ [PStr image_path])
           else collect_image_urls env rest image_urls
         else collect_image_urls env rest image_urls)%sys
  end.

Definition mime_type_of (ext : string) : string :=
  if (ext =? ".jpg")%string || (ext =? ".jpeg")%string then "image/jpeg"
  else if (ext =? ".webp")%string then "image/webp"
  else if (ext =? ".gif")%string then "image/gif"
  else "image/png".

(** Lines 95-125: what the [try] block does with the answer to the POST. *)
Definition handle_response (env : Env) (response : Response) : M (bool * PyVal) :=
  (if negb (status response =? 200)%Z then
     error_text <- lift (text response) ;;
     ret (false, PStr ("API请求失败: " +:+ str_of_int (status response)
                       +:+ " - " +:+ error_text))
   else
     data <- lift (json response) ;;
     has_data <- lift (py_in "data" data) ;;
     if negb has_data then ret (false, PStr "API返回格式错误") else
     items <- lift (py_getitem data "data") ;;
     if negb (truthy items) then ret (false, PStr "API返回格式错误") else
     items <- lift (py_iter items) ;;
     image_urls <- collect_image_urls env items [] ;;
     match image_urls with
     | [] => ret (false, PStr "未生成图像")
     | first :: _ => ret (true, first)
     end)%sys.

(** Lines 61-76: the reference image, when one is given and exists, is read
    and added to the payload as a data URI. *)
Definition add_reference_image (env : Env) (reference_image : option string)
    (payload : list (string * PyVal)) : M (list (string * PyVal)) :=
  match reference_image with
  | Some path =>
      if negb (path =? "")%string && path_exists env path then
        (_ <- emit (FileRead path) ;;
         bytes <- lift (read_bytes env path) ;;
         let image_data := b64encode env bytes in
         let ext := lower (splitext_ext env path) in
         ret (payload ++ [("image", PStr ("data:" +:+ mime_type_of ext
                                          +:+ ";base64," +:+ image_data))]))%sys
      else ret payload
  | None => ret payload
  end.

(** [generate_image(prompt, reference_image, resolution)]; the calls to
    the logger are left out. *)
Definition generate_image (env : Env) (prompt : string)
    (reference_image : option string) (resolution : string) : M (bool * PyVal) :=
  (me <- get_self ;;
   match api_keys me with
   | [] => ret (false, PStr "API密钥未配置")
   | _ :: _ =>
       let api_key := nth (random_index env mod length (api_keys me)) (api_keys me) "" in
       let api_base := rstrip_of (Ascii.eqb "/") (api_base me) in
       let url := api_base +:+ "/api/v3/images/generations" in
       let headers := [("Content-Type", "application/json");
                       ("Authorization", "Bearer " +:+ api_key)] in
       let payload := [("model", PStr (endpoint_id me));
                       ("prompt", PStr prompt);
                       ("response_format", PStr "url");
                       ("watermark", PBool false)] in
       let size := _map_resolution resolution (endpoint_id me) in
       let payload :=
         if negb (size =? "")%string then payload ++ [("size", PStr size)] else payload in
       payload <- add_reference_image env reference_image payload ;;
       _ <- _get_session ;;
       try_except
         (_ <- emit (Posted (mkRequest url headers payload)) ;;
          response <- lift (post env (mkRequest url headers payload)) ;;
          handle_response env response)
         (fun e => ret (false, PStr ("API请求异常: " +:+ str_exc env e)))
   end)%sys.

(** A system about to call [generate_image]: nothing has happened yet. *)
Definition fresh (me : ApiClient) : Sys := mkSys me [] 0.

Definition is2xx (status : Z) : bool := (200 <=? status)%Z && (status <=? 299)%Z.

(** Reading the reference image, if [generate_image] comes to read it,
    does not raise. *)
Definition reference_readable (env : Env) (reference_image : option string) : bool :=
  match reference_image with
  | Some path =>
      if negb (path =? "")%string && path_exists env path
      then match read_bytes env path with Return _ => true | Raise _ => false end
      else true
  | None => true
  end.

(** An environment for examples: no file exists, the clock stands at 0,
    whatever is posted is answered by [answer], and the text of a library
    exception is the text it carries. *)
Definition example_env (answer : Outcome Response) : Env :=
  mkEnv 0 (fun _ => false) (fun _ => Return "") (fun _ => "")
    (fun bytes => bytes) (fun text => Return text)
    (fun _ => answer) (fun _ => 0%Q) (fun _ _ => Return tt)
    (fun e => match e with LibraryError _ text => text | _ => "" end).

(** A request was sent. *)
Definition is_posted (e : Event) : bool :=
  match e with Posted _ => true | _ => false end.

End api_client.

(** ** Traces of the rate limiter *)

Module rate_limiter_traces.
Import rate_limiter.

(** Successive calls, each for its own key at its own time: the final
    limiter and the outcome of each call, in order. *)
Fixpoint run (self : RateLimiter) (trace : list (string * Q))
  : RateLimiter * list (Outcome (bool * option string)) :=
  match trace with
  | [] => (self, [])
  | (key, t) :: trace' =>
      let '(self1, o) := check_and_consume self key t in
      let '(self2, os) := run self1 trace' in
      (self2, o :: os)
  end.

(** The times of the calls of a trace made for [key]. *)
Fixpoint times_of (key : string) (trace : list (string * Q)) : list Q :=
  match trace with
  | [] => []
  | (k, t) :: trace' =>
      if (k =? key)%string then t :: times_of key trace' else times_of key trace'
  end.

(** The outcomes of the calls of a trace made for [key]. *)
Fixpoint outcomes_of (key : string) (trace : list (string * Q))
    (outcomes : list (Outcome (bool * option string)))
  : list (Outcome (bool * option string)) :=
  match trace, outcomes with
  | (k, _) :: trace', o :: outcomes' =>
      if (k =? key)%string then o :: outcomes_of key trace' outcomes'
      else outcomes_of key trace' outcomes'
  | _, _ => []
  end.

(** The times of the calls that were let through. *)
Fixpoint accepted (times : list Q) (outcomes : list (Outcome (bool * option string)))
  : list Q :=
  match times, outcomes with
  | t :: times', o :: outcomes' =>
      if allowed o then t :: accepted times' outcomes' else accepted times' outcomes'
  | _, _ => []
  end.

End rate_limiter_traces.

(** ** The settings groups of [core/config.py] *)

Module config_groups.
Import config.

(** [isinstance(override, dict) and override.get('__template_key') == 'doubao']:
    the test of line 31. *)
Definition is_doubao (override : PyVal) : bool :=
  match override with
  | PDict d => py_eq_str (dict_get d "__template_key" PNone) "doubao"
  | _ => false
  end.

(** [isinstance(v, list)]. *)
Definition is_list (v : PyVal) : bool :=
  match v with PList _ => true | _ => false end.

Definition get_api_settings (self : ConfigLoader) : list (string * PyVal) :=
  [("provider_id", provider_id self);
   ("api_type", api_type self);
   ("model", model self);
   ("api_keys", PList (List.map PStr (api_keys self)));
   ("endpoint_id", endpoint_id self);
   ("api_base", api_base self);
   ("default_size", default_size self);
   ("watermark", watermark self);
   ("optimize_prompt_mode", optimize_prompt_mode self)].

Definition get_image_generation_settings (self : ConfigLoader) : list (string * PyVal) :=
  [("resolution", resolution self); ("aspect_ratio", aspect_ratio self)].

Definition get_persona_settings (self : ConfigLoader) : list (string * PyVal) :=
  [("persona_reference_image", persona_reference_image self);
   ("enable_auto_outfit", enable_auto_outfit self)].

Definition get_retry_settings (self : ConfigLoader) : list (string * PyVal) :=
  [("max_attempts_per_key", max_attempts_per_key self);
   ("enable_smart_retry", enable_smart_retry self);
   ("total_timeout", total_timeout self)].

Definition get_rate_limit_settings (self : ConfigLoader) : list (string * PyVal) :=
  [("enabled", rate_limit_enabled self);
   ("max_requests", rate_limit_max_requests self);
   ("period_seconds", rate_limit_period self)].

End config_groups.

(** ** Reading the effects of [core/api_client.py] *)

Module api_client_effects.
Import api_client.

(** [isinstance(v, dict)]. *)
Definition is_dict (v : PyVal) : bool :=
  match v with PDict _ => true | _ => false end.

(** [v] is [None], a boolean or a number: it has no [in], no subscript and
    cannot be iterated. *)
Definition is_scalar (v : PyVal) : bool :=
  match v with
  | PNone | PBool _ | PInt _ | PFloat _ => true
  | _ => false
  end.

Definition is_session_created (e : Event) : bool :=
  match e with SessionCreated => true | _ => false end.

Definition is_file_written (e : Event) : bool :=
  match e with FileWritten _ _ => true | _ => false end.

(** The payload of lines 48-58, before the reference image. *)
Definition base_payload (me : ApiClient) (prompt resolution : string)
  : list (string * PyVal) :=
  [("model", PStr (endpoint_id me));
   ("prompt", PStr prompt);
   ("response_format", PStr "url");
   ("watermark", PBool false);
   ("size", PStr (_map_resolution resolution (endpoint_id me)))].

(** The data URI of line 75 for the bytes of the file at [path]. *)
Definition data_uri (env : Env) (path bytes : string) : string :=
  "data:" +:+ mime_type_of (lower (splitext_ext env path))
  +:+ ";base64," +:+ b64encode env bytes.

(** The reference image is given, named and on disk: line 61. *)
Definition reference_used (env : Env) (reference_image : option string) : bool :=
  match reference_image with
  | Some path => negb (path =? "")%string && path_exists env path
  | None => false
  end.

(** The item has neither a [url] nor a [b64_json]. *)
Definition no_locator (item : PyVal) : bool :=
  match item with
  | PDict d => negb (dict_has d "url") && negb (dict_has d "b64_json")
  | _ => false
  end.

(** From [s] to [s'] the client is unchanged and the log has grown by file
    writes only. *)
Definition only_writes (s s' : Sys) : Prop :=
  self s' = self s /\
  exists ws, events s' = events s ++ ws /\ forallb is_file_written ws = true.

(** The events a call to [_get_session] adds for a client whose session
    is [x]. *)
Definition session_events (x : Session) : list Event :=
  match x with OpenSession => [] | _ => [SessionCreated] end.

(** The events reading the reference image adds. *)
Definition read_events (env : Env) (reference_image : option string) : list Event :=
  match reference_image with
  | Some path => if reference_used env reference_image then [FileRead path] else []
  | None => []
  end.

(** The image entry of the payload. *)
Definition image_entry (env : Env) (reference_image : option string)
  : list (string * PyVal) :=
  match reference_image with
  | Some path =>
      if reference_used env reference_image then
        match read_bytes env path with
        | Return bytes => [("image", PStr (data_uri env path bytes))]
        | Raise _ => []
        end
      else []
  | None => []
  end.

(** The request of lines 39-58 and 75 for the key [api_key]. *)
Definition request_with (env : Env) (me : ApiClient) (api_key prompt : string)
    (reference_image : option string) (resolution : string) : Request :=
  mkRequest
    (rstrip_of (Ascii.eqb "/") (api_base me) +:+ "/api/v3/images/generations")
    [("Content-Type", "application/json"); ("Authorization", "Bearer " +:+ api_key)]
    (base_payload me prompt resolution ++ image_entry env reference_image).

(** The client with an open session. *)
Definition with_open_session (me : ApiClient) : ApiClient :=
  mkApiClient (api_keys me) (api_base me) (endpoint_id me) OpenSession.

End api_client_effects.

(** ** main.py *)

Module main.
Import api_client.

(** An object of the host, as [_get_user_id] probes it: a bag of named
    attributes, or a plain value, which has none of the attributes asked
    for.  Reading an attribute does not raise. *)
Inductive PyObj : Type :=
| Obj (attrs : list (string * PyObj))
| Val (v : PyVal).

Fixpoint attr_lookup (attrs : list (string * PyObj)) (name : string) : option PyObj :=
  match attrs with
  | [] => None
  | (k, o) :: attrs' => if (k =? name)%string then Some o else attr_lookup attrs' name
  end.

(** [hasattr(o, name)]. *)
Definition hasattr (o : PyObj) (name : string) : bool :=
  match o with
  | Obj attrs => match attr_lookup attrs name with Some _ => true | None => false end
  | Val _ => false
  end.

(** [o.name], read after [hasattr(o, name)]. *)
Definition getattr (o : PyObj) (name : string) : PyObj :=
  match o with
  | Obj attrs => default (Val PNone) (attr_lookup attrs name)
  | Val _ => Val PNone
  end.

(** [bool(o)]. *)
Definition obj_truthy (o : PyObj) : bool :=
  match o with
  | Obj _ => true
  | Val v => truthy v
  end.

(** [o or "unknown"]. *)
Definition or_unknown (o : PyObj) : PyObj :=
  if obj_truthy o then o else Val (PStr "unknown").

(** Lines 191-195 and 201-205: the identifier a sender carries. *)
Definition sender_id (sender : PyObj) : PyObj :=
  if hasattr sender "user_id" then or_unknown (getattr sender "user_id")
  else if hasattr sender "id" then or_unknown (getattr sender "id")
  else Val (PStr "unknown").

(** [_get_user_id(event)]. *)
Definition _get_user_id (event : PyObj) : PyObj :=
  if hasattr event "user_id" then or_unknown (getattr event "user_id")
  else if hasattr event "sender" && obj_truthy (getattr event "sender") then
    sender_id (getattr event "sender")
  else if hasattr event "message_obj" && obj_truthy (getattr event "message_obj") then
    let message_obj := getattr event "message_obj" in
    if hasattr message_obj "user_id" then or_unknown (getattr message_obj "user_id")
    else if hasattr message_obj "sender" && obj_truthy (getattr message_obj "sender") then
      sender_id (getattr message_obj "sender")
    else Val (PStr "unknown")
  else Val (PStr "unknown").

(** What [_generate_selfie] asks of [os.path]. *)
Record Paths : Type := mkPaths {
  isabs : string -> bool;             (* os.path.isabs *)
  join : string -> string -> string   (* os.path.join *)
}.

(** Lines 378-381 and 396-399: the path that is looked for; a relative
    path is taken from the data directory of the plugin when there is one
    ([None] when asking for it raised; a directory that is the empty string
    is falsy and counts as none). *)
Definition check_path_of (paths : Paths) (plugin_data_dir : option string)
    (img_path : string) : string :=
  match plugin_data_dir with
  | Some dir =>
      if negb (isabs paths img_path) && negb (dir =? "")%string
      then join paths dir img_path else img_path
  | None => img_path
  end.

(** Lines 372-391: the loop over a list of reference images. *)
Fixpoint first_existing (env : Env) (paths : Paths) (plugin_data_dir : option string)
    (images : list PyVal) : option string :=
  match images with
  | [] => None
  | img_path :: rest =>
      if truthy img_path then
        match img_path with
        | PStr p =>
            let check_path := check_path_of paths plugin_data_dir p in
            if path_exists env check_path then Some check_path
            else first_existing env paths plugin_data_dir rest
        | _ => first_existing env paths plugin_data_dir rest
        end
      else first_existing env paths plugin_data_dir rest
  end.

(** Lines 355-409 of [_generate_selfie]: the reference image that is used,
    from the configured [persona_reference_image]. *)
Definition resolve_reference_image (env : Env) (paths : Paths)
    (plugin_data_dir : option string) (persona_reference_image : PyVal) : option string :=
  if truthy persona_reference_image then
    match persona_reference_image with
    | PList images => first_existing env paths plugin_data_dir images
    | PStr img_path =>
        let check_path := check_path_of paths plugin_data_dir img_path in
        if path_exists env check_path then Some check_path else None
    | _ => None
    end
  else None.

(** The configured paths that are looked for, in order. *)
Fixpoint candidates (paths : Paths) (plugin_data_dir : option string)
    (images : list PyVal) : list string :=
  match images with
  | [] => []
  | PStr p :: rest =>
      if negb (p =? "")%string
      then check_path_of paths plugin_data_dir p :: candidates paths plugin_data_dir rest
      else candidates paths plugin_data_dir rest
  | _ :: rest => candidates paths plugin_data_dir rest
  end.

Definition configured_images (persona_reference_image : PyVal) : list PyVal :=
  match persona_reference_image with
  | PList images => images
  | PStr img_path => [PStr img_path]
  | _ => []
  end.

End main.

(** * Properties *)

(** ** Floats, lists *)

Lemma Qltb_lt (x y : Q) : Qltb x y = true <-> (x < y)%Q.
Proof.
  unfold Qltb. rewrite negb_true_iff, <- not_true_iff_false, Qle_bool_iff.
  split; [apply Qnot_le_lt | apply Qlt_not_le].
Qed.

Lemma Qltb_ge (x y : Q) : Qltb x y = false <-> (y <= x)%Q.
Proof.
  unfold Qltb. rewrite negb_false_iff. apply Qle_bool_iff.
Qed.

Lemma filter_sublist {A} (p : A -> bool) (l1 l2 : list A) :
  sublist l1 l2 -> sublist (List.filter p l1) (List.filter p l2).
Proof.
  induction 1 as [|x l1 l2 _ IH|x l1 l2 _ IH]; simpl.
  - constructor.
  - destruct (p x); [by constructor | exact IH].
  - destruct (p x); [by constructor | exact IH].
Qed.

Lemma filter_all {A} (p : A -> bool) (l : list A) :
  (forall x, In x l -> p x = true) -> List.filter p l = l.
Proof.
  induction l as [|a l IH]; simpl; intros H; [done|].
  rewrite (H a) by auto. f_equal. apply IH. auto.
Qed.

Lemma py_min_least (l : list Q) (m : Q) :
  py_min l = Return m -> In m l /\ forall x, In x l -> (m <= x)%Q.
Proof.
  destruct l as [|a r]; simpl; [discriminate|].
  intros [= <-]. revert a.
  induction r as [|b r IH]; intros a; simpl.
  - split; [auto|]. intros x [<-|[]]. apply Qle_refl.
  - destruct (Qltb b a) eqn:E.
    + apply Qltb_lt in E. destruct (IH b) as [Hin Hle]. split.
      * destruct Hin as [<-|Hin]; auto.
      * intros x [<-|[<-|Hx]].
        -- apply Qle_trans with b; [apply Hle; auto | by apply Qlt_le_weak].
        -- apply Hle; auto.
        -- apply Hle; auto.
    + apply Qltb_ge in E. destruct (IH a) as [Hin Hle]. split.
      * destruct Hin as [<-|Hin]; auto.
      * intros x [<-|[<-|Hx]].
        -- apply Hle; auto.
        -- apply Qle_trans with a; [apply Hle; auto | exact E].
        -- apply Hle; auto.
Qed.

Lemma py_min_nonempty (l : list Q) : l <> [] -> exists m, py_min l = Return m.
Proof. destruct l; [done|]. intros _. simpl. eauto. Qed.

(** ** Strings *)

Lemma lstrip_of_head (p : ascii -> bool) (s : string) :
  match lstrip_of p s with
  | String c _ => p c = false
  | EmptyString => True
  end.
Proof.
  induction s as [|c r IH]; cbn [lstrip_of]; [done|].
  destruct (p c) eqn:E; [exact IH | exact E].
Qed.

Lemma rstrip_of_head (p : ascii -> bool) (c : ascii) (r : string) :
  p c = false -> exists r', rstrip_of p (String c r) = String c r'.
Proof.
  intros Hc. cbn [rstrip_of]. rewrite Hc. destruct (rstrip_of p r); eauto.
Qed.

Lemma rstrip_of_last (s : string) :
  ends_with_space (rstrip_of isspace s) = false.
Proof.
  induction s as [|c r IH]; cbn [rstrip_of]; [done|].
  destruct (rstrip_of isspace r) as [|c' r'] eqn:E.
  - destruct (isspace c) eqn:Ec; [done|]. cbn. exact Ec.
  - exact IH.
Qed.

Lemma strip_clean (s : string) :
  starts_with_space (strip s) = false /\ ends_with_space (strip s) = false.
Proof.
  split; [|apply rstrip_of_last].
  unfold strip. pose proof (lstrip_of_head isspace s) as H.
  destruct (lstrip_of isspace s) as [|c r]; [done|].
  destruct (rstrip_of_head isspace c r H) as [r' ->]. exact H.
Qed.

Lemma lstrip_of_fixed (s : string) :
  starts_with_space s = false -> lstrip_of isspace s = s.
Proof. destruct s as [|c r]; cbn; [done|]. by intros ->. Qed.

Lemma rstrip_of_fixed (s : string) :
  ends_with_space s = false -> rstrip_of isspace s = s.
Proof.
  induction s as [|c r IH]; [done|].
  cbn [ends_with_space rstrip_of]. destruct r as [|c' r'].
  - cbn. by intros ->.
  - intros H. rewrite (IH H). done.
Qed.

Lemma isspace_lower_char (c : ascii) : isspace (lower_char c) = isspace c.
Proof. destruct c as [[] [] [] [] [] [] [] []]; reflexivity. Qed.

Lemma lower_char_idem (c : ascii) : lower_char (lower_char c) = lower_char c.
Proof. destruct c as [[] [] [] [] [] [] [] []]; reflexivity. Qed.

Lemma lower_char_space (c : ascii) : Ascii.eqb (lower_char c) " " = Ascii.eqb c " ".
Proof. destruct c as [[] [] [] [] [] [] [] []]; reflexivity. Qed.

Lemma lower_idem (s : string) : lower (lower s) = lower s.
Proof.
  induction s as [|c r IH]; [done|]. cbn [lower].
  by rewrite lower_char_idem, IH.
Qed.

Lemma lower_empty (s : string) : lower s = "" -> s = "".
Proof. by destruct s. Qed.

Lemma lstrip_lower (s : string) :
  lstrip_of isspace (lower s) = lower (lstrip_of isspace s).
Proof.
  induction s as [|c r IH]; [done|]. cbn [lower lstrip_of].
  rewrite isspace_lower_char. by destruct (isspace c).
Qed.

Lemma rstrip_lower (s : string) :
  rstrip_of isspace (lower s) = lower (rstrip_of isspace s).
Proof.
  induction s as [|c r IH]; [done|]. cbn [lower rstrip_of].
  rewrite IH, isspace_lower_char.
  destruct (rstrip_of isspace r); cbn [lower]; [by destruct (isspace c) | done].
Qed.

Lemma strip_lower (s : string) : strip (lower s) = lower (strip s).
Proof. unfold strip. by rewrite lstrip_lower, rstrip_lower. Qed.

Lemma remove_space_lower (s : string) :
  remove_char " " (lower s) = lower (remove_char " " s).
Proof.
  induction s as [|c r IH]; [done|]. cbn [lower remove_char].
  rewrite lower_char_space, IH. by destruct (Ascii.eqb c " ").
Qed.

Lemma remove_char_idem (c : ascii) (s : string) :
  remove_char c (remove_char c s) = remove_char c s.
Proof.
  induction s as [|a r IH]; [done|]. cbn [remove_char].
  destruct (Ascii.eqb a c) eqn:E; [done|]. cbn [remove_char]. by rewrite E, IH.
Qed.

Lemma space_isspace (c : ascii) : Ascii.eqb c " " = true -> isspace c = true.
Proof. intros ->%Ascii.eqb_eq. reflexivity. Qed.

Lemma lstrip_remove_space (s : string) :
  lstrip_of isspace (remove_char " " s) = remove_char " " (lstrip_of isspace s).
Proof.
  induction s as [|c r IH]; [done|]. cbn [remove_char lstrip_of].
  destruct (Ascii.eqb c " ") eqn:E.
  - by rewrite (space_isspace c E).
  - cbn [lstrip_of]. destruct (isspace c); [done|]. cbn [remove_char]. by rewrite E.
Qed.

Lemma ends_with_space_cons (c : ascii) (s : string) :
  s <> "" -> ends_with_space (String c s) = ends_with_space s.
Proof. by destruct s. Qed.

Lemma remove_space_nonempty (s : string) :
  s <> "" -> ends_with_space s = false -> remove_char " " s <> "".
Proof.
  induction s as [|c r IH]; [done|]. intros _ Hend. cbn [remove_char].
  destruct (Ascii.eqb c " ") eqn:E; [|done].
  destruct r as [|c' r'].
  - cbn in Hend. by rewrite (space_isspace c E) in Hend.
  - apply IH; [done|]. by rewrite ends_with_space_cons in Hend.
Qed.

Lemma rstrip_remove_space (s : string) :
  rstrip_of isspace (remove_char " " s) = remove_char " " (rstrip_of isspace s).
Proof.
  induction s as [|c r IH]; [done|]. cbn [remove_char rstrip_of].
  pose proof (rstrip_of_last r) as Hlast.
  destruct (Ascii.eqb c " ") eqn:E.
  - rewrite IH, (space_isspace c E).
    destruct (rstrip_of isspace r) as [|c' r']; [done|].
    cbn [remove_char]. by rewrite E.
  - cbn [rstrip_of]. rewrite IH.
    destruct (rstrip_of isspace r) as [|c' r'] eqn:ER.
    + cbn [remove_char]. destruct (isspace c); [done|]. cbn [remove_char]. by rewrite E.
    + pose proof (remove_space_nonempty (String c' r') ltac:(done) Hlast) as Hne.
      destruct (remove_char " " (String c' r')) as [|c'' r''] eqn:ER'; [done|].
      cbn [remove_char] in ER' |- *. rewrite E. by rewrite ER'.
Qed.

Lemma strip_remove_space (s : string) :
  strip (remove_char " " s) = remove_char " " (strip s).
Proof. unfold strip. by rewrite lstrip_remove_space, rstrip_remove_space. Qed.

Lemma strip_idem (s : string) : strip (strip s) = strip s.
Proof.
  destruct (strip_clean s) as [Hs He]. unfold strip at 1.
  by rewrite (lstrip_of_fixed _ Hs), (rstrip_of_fixed _ He).
Qed.

Lemma append_nil (s : string) : "" +:+ s = s.
Proof. reflexivity. Qed.

Lemma append_cons (c : ascii) (r s : string) : String c r +:+ s = String c (r +:+ s).
Proof. reflexivity. Qed.

Lemma lstrip_all_space (a : string) :
  all_chars isspace a = true -> lstrip_of isspace a = "".
Proof.
  induction a as [|c r IH]; [done|]. cbn [all_chars lstrip_of].
  intros [-> H]%andb_true_iff. by apply IH.
Qed.

Lemma rstrip_all_space (a : string) :
  all_chars isspace a = true -> rstrip_of isspace a = "".
Proof.
  induction a as [|c r IH]; [done|]. cbn [all_chars rstrip_of].
  intros [-> H]%andb_true_iff. by rewrite (IH H).
Qed.

Lemma lstrip_app_space (a s : string) :
  all_chars isspace a = true -> lstrip_of isspace (a +:+ s) = lstrip_of isspace s.
Proof.
  induction a as [|c r IH]; [done|]. rewrite append_cons. cbn [all_chars lstrip_of].
  intros [-> H]%andb_true_iff. by apply IH.
Qed.

Lemma rstrip_app_space (s b : string) :
  all_chars isspace b = true -> rstrip_of isspace (s +:+ b) = rstrip_of isspace s.
Proof.
  intros Hb. induction s as [|c r IH].
  - rewrite append_nil. by rewrite rstrip_all_space.
  - rewrite append_cons. cbn [rstrip_of]. by rewrite IH.
Qed.

Lemma lstrip_app (s b : string) :
  all_chars isspace b = true ->
  lstrip_of isspace s = "" /\ lstrip_of isspace (s +:+ b) = "" \/
  lstrip_of isspace (s +:+ b) = lstrip_of isspace s +:+ b.
Proof.
  intros Hb. induction s as [|c r IH].
  - left. rewrite append_nil. split; [done | by apply lstrip_all_space].
  - rewrite append_cons. cbn [lstrip_of]. destruct (isspace c); [exact IH | right; reflexivity].
Qed.

Lemma strip_app_space (a s b : string) :
  all_chars isspace a = true -> all_chars isspace b = true ->
  strip (a +:+ s +:+ b) = strip s.
Proof.
  intros Ha Hb. unfold strip. rewrite (lstrip_app_space a _ Ha).
  destruct (lstrip_app s b Hb) as [[E1 E2] | E]; rewrite ?E1, ?E2, ?E; [done|].
  by apply rstrip_app_space.
Qed.

Lemma span_spec (p : ascii -> bool) (s a b : string) :
  span p s = (a, b) -> s = a +:+ b /\ all_chars p a = true.
Proof.
  revert a b. induction s as [|c r IH]; intros a b; cbn [span].
  - by intros [= <- <-].
  - destruct (p c) eqn:E; [|by intros [= <- <-]].
    destruct (span p r) as [a' b']. intros [= <- <-].
    destruct (IH a' b' eq_refl) as [-> Ha]. split; [done|].
    cbn [all_chars]. by rewrite E, Ha.
Qed.

Lemma all_chars_app (p : ascii -> bool) (a b : string) :
  all_chars p (a +:+ b) = all_chars p a && all_chars p b.
Proof.
  induction a as [|c r IH]; [done|]. rewrite append_cons. cbn [all_chars].
  by rewrite IH, andb_assoc.
Qed.

Lemma ends_with_space_snoc (s : string) (c : ascii) :
  ends_with_space (s +:+ String c "") = isspace c.
Proof.
  induction s as [|a r IH]; [done|]. rewrite append_cons.
  rewrite ends_with_space_cons; [exact IH|]. by destruct r.
Qed.

(** ** The rate limiter *)

Module rate_limiter_facts.
Import rate_limiter.

Section one_call.
Variables (self : RateLimiter) (key : string) (now : Q).

(** One call, read off the window of the key: the limiter is left with the
    unexpired entries, followed by [now] when the call is let through. *)
Lemma check_and_consume_eq :
  let kept := unexpired (period_seconds self) now (window self key) in
  check_and_consume self key now =
  if (max_requests self <=? Z.of_nat (length kept))%Z then
    (set_requests self (<[key := kept]> (requests self)),
     match py_min kept with
     | Raise e => Raise e
     | Return oldest =>
         Return (false, Some (too_frequent_message
                   (inject_Z (period_seconds self) - (now - oldest))%Q))
     end)
  else
    (set_requests self (<[key := kept ++ [now]]> (requests self)),
     Return (true, None)).
Proof.
  intros kept. subst kept. unfold window, check_and_consume.
  destruct (requests self !! key) as [l|] eqn:E.
  - rewrite E. cbn [default from_option id].
    destruct (Z.leb _ _); [destruct (py_min _)|]; by rewrite ?insert_insert_eq.
  - rewrite lookup_insert_eq. cbn [default from_option id].
    destruct (Z.leb _ _); [destruct (py_min _)|]; by rewrite ?insert_insert_eq.
Qed.

Lemma check_window :
  let kept := unexpired (period_seconds self) now (window self key) in
  window (fst (check_and_consume self key now)) key
  = if (max_requests self <=? Z.of_nat (length kept))%Z then kept else kept ++ [now].
Proof.
  intros kept. rewrite check_and_consume_eq. fold kept.
  destruct (Z.leb _ _); unfold window; cbn [fst requests set_requests];
    by rewrite lookup_insert_eq.
Qed.

Lemma check_outcome :
  let kept := unexpired (period_seconds self) now (window self key) in
  snd (check_and_consume self key now)
  = if (max_requests self <=? Z.of_nat (length kept))%Z then
      match py_min kept with
      | Raise e => Raise e
      | Return oldest =>
          Return (false, Some (too_frequent_message
                    (inject_Z (period_seconds self) - (now - oldest))%Q))
      end
    else Return (true, None).
Proof.
  intros kept. rewrite check_and_consume_eq. fold kept.
  by destruct (Z.leb _ _).
Qed.

Lemma check_max_requests :
  max_requests (fst (check_and_consume self key now)) = max_requests self.
Proof. rewrite check_and_consume_eq. cbv zeta. by destruct (Z.leb _ _). Qed.

Lemma check_period_seconds :
  period_seconds (fst (check_and_consume self key now)) = period_seconds self.
Proof. rewrite check_and_consume_eq. cbv zeta. by destruct (Z.leb _ _). Qed.

Lemma check_other_key (k : string) :
  k <> key ->
  requests (fst (check_and_consume self key now)) !! k = requests self !! k.
Proof.
  intros Hk. rewrite check_and_consume_eq. cbv zeta.
  destruct (Z.leb _ _); cbn [fst requests set_requests];
    by rewrite lookup_insert_ne.
Qed.

Lemma check_other_window (k : string) :
  k <> key -> window (fst (check_and_consume self key now)) k = window self k.
Proof. intros Hk. unfold window. by rewrite check_other_key. Qed.

End one_call.

Lemma unexpired_spec (P : Z) (now x : Q) (l : list Q) :
  In x (unexpired P now l) <-> In x l /\ (now - x < inject_Z P)%Q.
Proof. unfold unexpired. rewrite filter_In, Qltb_lt. reflexivity. Qed.

Lemma unexpired_length (P : Z) (now : Q) (l : list Q) :
  (length (unexpired P now l) <= length l)%nat.
Proof. apply List.filter_length_le. Qed.

Lemma unexpired_all (P : Z) (now : Q) (l : list Q) :
  (forall x, In x l -> (now - x < inject_Z P)%Q) -> unexpired P now l = l.
Proof.
  intros H. apply filter_all. intros x Hx. apply Qltb_lt. auto.
Qed.

(** What has expired stays expired while the clock moves forward. *)
Lemma unexpired_later (P : Z) (now later : Q) (l : list Q) :
  (now <= later)%Q ->
  unexpired P later (unexpired P now l) = unexpired P later l.
Proof.
  intros Hlater. unfold unexpired.
  induction l as [|a l IHl]; [done|]. cbn [List.filter].
  destruct (Qltb (now - a) _) eqn:E1; cbn [List.filter]; rewrite IHl.
  - done.
  - destruct (Qltb (later - a) _) eqn:E2; [|done].
    apply Qltb_ge in E1. apply Qltb_lt in E2. lra.
Qed.

Lemma unexpired_sublist (P : Z) (now : Q) (l : list Q) :
  sublist (unexpired P now l) l.
Proof.
  unfold unexpired.
  induction l as [|a l IHl]; cbn [List.filter]; [constructor|].
  destruct (Qltb _ _); by constructor.
Qed.

(** *** Sequences of calls *)

Lemma calls_cons (self : RateLimiter) (key : string) (t : Q) (times : list Q) :
  calls self key (t :: times)
  = (fst (calls (fst (check_and_consume self key t)) key times),
     snd (check_and_consume self key t)
       :: snd (calls (fst (check_and_consume self key t)) key times)).
Proof.
  cbn [calls]. destruct (check_and_consume self key t) as [self1 o].
  cbn [fst snd]. by destruct (calls self1 key times).
Qed.

Lemma calls_max_requests (key : string) (times : list Q) :
  forall self, max_requests (fst (calls self key times)) = max_requests self.
Proof.
  induction times as [|t times IH]; intros self; [done|].
  rewrite calls_cons. cbn [fst]. by rewrite IH, check_max_requests.
Qed.

Lemma calls_period_seconds (key : string) (times : list Q) :
  forall self, period_seconds (fst (calls self key times)) = period_seconds self.
Proof.
  induction times as [|t times IH]; intros self; [done|].
  rewrite calls_cons. cbn [fst]. by rewrite IH, check_period_seconds.
Qed.

(** While the window has room for all of them, calls are let through. *)
Lemma calls_all_allowed (key : string) (times : list Q) :
  forall self,
    (Z.of_nat (length (window self key) + length times) <= max_requests self)%Z ->
    forallb allowed (snd (calls self key times)) = true.
Proof.
  induction times as [|t times IH]; intros self Hroom; [done|].
  rewrite calls_cons. cbn [snd forallb].
  pose proof (unexpired_length (period_seconds self) t (window self key)) as Hlen.
  pose proof (check_window self key t) as Hw.
  pose proof (check_outcome self key t) as Ho.
  cbv zeta in Hw, Ho. cbn [length] in Hroom.
  destruct (Z.leb_spec (max_requests self)
              (Z.of_nat (length (unexpired (period_seconds self) t (window self key)))));
    [lia|].
  rewrite Ho. cbn [allowed andb]. apply IH.
  rewrite Hw, check_max_requests, length_app. cbn [length]. lia.
Qed.

(** What is on record for the key was put there by one of the calls, in
    the order of the calls. *)
Lemma calls_window_sublist (key : string) (times : list Q) :
  forall self,
    sublist (window (fst (calls self key times)) key) (window self key ++ times).
Proof.
  induction times as [|t times IH]; intros self.
  - cbn [calls fst]. by rewrite app_nil_r.
  - rewrite calls_cons. cbn [fst]. etrans; [apply IH|].
    rewrite check_window. cbv zeta.
    replace (window self key ++ t :: times)
      with ((window self key ++ [t]) ++ times) by by rewrite <- app_assoc.
    apply sublist_app; [|done].
    set (kept := unexpired _ _ _).
    assert (sublist kept (window self key)) as Hk by apply unexpired_sublist.
    destruct (Z.leb _ _).
    + by apply sublist_inserts_r.
    + by apply sublist_app.
Qed.

(** Calls made within less than a period of everything on record expire
    nothing. *)
Lemma calls_nothing_expires (key : string) (lo hi : Q) (times : list Q) :
  forall self,
    (hi - lo < inject_Z (period_seconds self))%Q ->
    (forall x, In x (window self key ++ times) -> (lo <= x)%Q /\ (x <= hi)%Q) ->
    (Z.of_nat (length (window self key) + length times) <= max_requests self)%Z ->
    window (fst (calls self key times)) key = window self key ++ times.
Proof.
  induction times as [|t times IH]; intros self Hspan Hin Hroom.
  - cbn [calls fst]. by rewrite app_nil_r.
  - rewrite calls_cons. cbn [fst].
    assert (unexpired (period_seconds self) t (window self key) = window self key) as Hkept.
    { apply unexpired_all. intros x Hx.
      destruct (Hin x) as [Hlo _]; [apply in_or_app; auto|].
      destruct (Hin t) as [_ Hhi]; [apply in_or_app; right; left; auto|].
      lra. }
    pose proof (check_window self key t) as Hw. cbv zeta in Hw.
    rewrite Hkept in Hw. cbn [length] in Hroom.
    destruct (Z.leb_spec (max_requests self) (Z.of_nat (length (window self key))));
      [lia|].
    rewrite IH.
    + rewrite Hw. by rewrite <- app_assoc.
    + by rewrite check_period_seconds.
    + rewrite Hw, <- app_assoc. exact Hin.
    + rewrite Hw, check_max_requests, length_app. cbn [length]. lia.
Qed.

Lemma nondecreasing_head (x : Q) (l : list Q) :
  nondecreasing (x :: l) = true -> forall y, In y l -> (x <= y)%Q.
Proof.
  cbn [nondecreasing]. intros [H _]%andb_true_iff y Hy.
  rewrite forallb_forall in H. apply Qle_bool_iff. auto.
Qed.

Lemma nondecreasing_last (l : list Q) (t : Q) :
  nondecreasing (l ++ [t]) = true -> forall y, In y l -> (y <= t)%Q.
Proof.
  induction l as [|x l IH]; intros H y Hy; [destruct Hy|].
  change ((x :: l) ++ [t]) with (x :: (l ++ [t])) in H.
  destruct Hy as [<-|Hy].
  - apply (nondecreasing_head _ _ H). apply in_or_app. right. by left.
  - cbn [nondecreasing] in H. apply andb_true_iff in H as [_ H]. by apply IH.
Qed.

End rate_limiter_facts.

Module rate_limiter_spec.
Import rate_limiter rate_limiter_facts.

Lemma int_of_float_floor (x : Q) : (0 <= x)%Q -> int_of_float x = Qfloor x.
Proof.
  destruct x as [n d]. unfold Qle, int_of_float, Qfloor. cbn [Qnum Qden].
  intros H. apply Z.quot_div_nonneg; lia.
Qed.

Lemma first_request_allowed (self : RateLimiter) (key : string) (now : Q) :
  (1 <= max_requests self)%Z ->
  window self key = [] ->
  snd (check_and_consume self key now) = Return (true, None).
Proof.
  intros Hmax Hw. rewrite check_outcome. cbv zeta. rewrite Hw.
  unfold unexpired. cbn [List.filter length]. change (Z.of_nat 0) with 0%Z.
  destruct (Z.leb_spec (max_requests self) 0); [lia | done].
Qed.

(** C1. With [max_requests = N >= 1] and [period_seconds = P], for a key
    with nothing on record and a clock that does not run backwards: the
    first [N] calls are all let through; call [N+1] is rejected when made
    less than [P] seconds after the first, and let through when made [P]
    seconds or more after the first.  Moreover, for any limiter with these
    settings and any call at time [now]: every entry the call retains has
    [now - entry < P], the window left behind is the retained entries,
    followed by [now] when the call is let through (so for a positive period
    every entry of it is younger than [P]), and after a call that is let
    through the window has at most [N] entries. *)
Theorem sliding_window_allows_N_per_period
    (N P : Z) (reqs : gmap string (list Q)) (key : string)
    (t1 : Q) (ts : list Q) (t : Q) :
  (1 <= N)%Z ->
  window (mkRateLimiter N P reqs) key = [] ->
  Z.of_nat (length (t1 :: ts)) = N ->
  nondecreasing (t1 :: ts ++ [t]) = true ->
  let first_N := calls (mkRateLimiter N P reqs) key (t1 :: ts) in
  let next := check_and_consume (fst first_N) key t in
  forallb allowed (snd first_N) = true /\
  ((t - t1 < inject_Z P)%Q -> rejected (snd next) = true) /\
  ((inject_Z P <= t - t1)%Q -> snd next = Return (true, None)) /\
  (forall (others : gmap string (list Q)) (k : string) (now : Q),
      let self := mkRateLimiter N P others in
      let kept := unexpired P now (window self k) in
      let after := check_and_consume self k now in
      Forall (fun x => (now - x < inject_Z P)%Q) kept /\
      (window (fst after) k = kept \/ window (fst after) k = kept ++ [now]) /\
      ((0 < P)%Z -> Forall (fun x => (now - x < inject_Z P)%Q) (window (fst after) k)) /\
      (allowed (snd after) = true ->
       (Z.of_nat (length (window (fst after) k)) <= N)%Z)).
Proof.
  intros HN Hempty Hlen Hmono first_N next.
  set (self0 := mkRateLimiter N P reqs) in *.
  split; [|split; [|split; [|intros others k now self kept after;
                             split; [|split; [|split]]]]].
  - apply calls_all_allowed. rewrite Hempty. cbn [max_requests self0 length] in *. lia.
  - intros Hin. subst next first_N. rewrite check_outcome. cbv zeta.
    rewrite calls_max_requests, calls_period_seconds.
    cbn [max_requests period_seconds self0].
    assert (window (fst (calls self0 key (t1 :: ts))) key = t1 :: ts) as ->.
    { rewrite (calls_nothing_expires key t1 t); rewrite ?Hempty; try done.
      - cbn [app]. intros x [<-|Hx].
        + split; [apply Qle_refl|].
          apply (nondecreasing_last (t1 :: ts) t Hmono). by left.
        + split.
          * apply (nondecreasing_head t1 (ts ++ [t]) Hmono). apply in_or_app. by left.
          * apply (nondecreasing_last (t1 :: ts) t Hmono). by right.
      - cbn [max_requests self0 length app] in *. lia. }
    rewrite unexpired_all.
    + destruct (Z.leb_spec N (Z.of_nat (length (t1 :: ts)))); [|lia].
      destruct (py_min_nonempty (t1 :: ts)) as [m ->]; done.
    + intros x Hx.
      assert (t1 <= x)%Q.
      { destruct Hx as [<-|Hx]; [apply Qle_refl|].
        apply (nondecreasing_head t1 (ts ++ [t]) Hmono). apply in_or_app. by left. }
      lra.
  - intros Hout. subst next first_N. rewrite check_outcome. cbv zeta.
    rewrite calls_max_requests, calls_period_seconds.
    cbn [max_requests period_seconds self0].
    pose proof (calls_window_sublist key (t1 :: ts) self0) as Hsub.
    rewrite Hempty in Hsub. cbn [app] in Hsub.
    apply (filter_sublist (fun x => Qltb (t - x) (inject_Z P))) in Hsub.
    apply sublist_length in Hsub. cbn [List.filter] in Hsub.
    apply Qltb_ge in Hout. rewrite Hout in Hsub.
    pose proof (List.filter_length_le (fun x => Qltb (t - x) (inject_Z P)) ts) as Hts.
    fold (unexpired P t (window (fst (calls self0 key (t1 :: ts))) key)) in Hsub.
    destruct (Z.leb_spec N (Z.of_nat (length
      (unexpired P t (window (fst (calls self0 key (t1 :: ts))) key))))); [|done].
    cbn [length] in Hlen. lia.
  - apply Forall_forall. intros x Hx%list_elem_of_In. by apply unexpired_spec in Hx as [_ Hx].
  - subst after. rewrite check_window. cbv zeta. fold kept.
    destruct (Z.leb _ _); auto.
  - intros HP. subst after. rewrite check_window. cbv zeta.
    cbn [max_requests period_seconds self]. fold kept.
    assert (Forall (fun x => (now - x < inject_Z P)%Q) kept) as Hk.
    { apply Forall_forall. intros x Hx%list_elem_of_In.
      by apply unexpired_spec in Hx as [_ Hx]. }
    destruct (Z.leb _ _); [done|].
    apply Forall_app. split; [done|]. constructor; [|constructor].
    assert (inject_Z 0 < inject_Z P)%Q as H0 by (rewrite <- Zlt_Qlt; lia).
    change (inject_Z 0) with 0%Q in H0. lra.
  - subst after. rewrite check_window, check_outcome. cbv zeta.
    cbn [max_requests period_seconds self]. fold kept.
    destruct (Z.leb_spec N (Z.of_nat (length kept))).
    + destruct (py_min kept); discriminate.
    + intros _. rewrite length_app. cbn [length]. lia.
Qed.

(** C3. With [max_requests = 0] no call is answered: from a fresh limiter,
    every call of any sequence of calls for a key raises [ValueError] (the
    [min] of line 22 is taken of an empty list), where the specification
    asks for a rejection. *)
Theorem zero_quota_raises_value_error (P : Z) (key : string) (times : list Q) :
  Forall (fun o => o = Raise ValueError) (snd (calls (__init__ 0 P) key times)) /\
  window (fst (calls (__init__ 0 P) key times)) key = [].
Proof.
  assert (forall self, max_requests self = 0%Z -> window self key = [] ->
            Forall (fun o => o = Raise ValueError) (snd (calls self key times)) /\
            window (fst (calls self key times)) key = []) as H.
  { induction times as [|t times IH]; intros self Hmax Hw.
    - split; [constructor | done].
    - rewrite calls_cons. cbn [fst snd].
      pose proof (check_window self key t) as Hw'.
      pose proof (check_outcome self key t) as Ho.
      cbv zeta in Hw', Ho. rewrite Hw, Hmax in Hw', Ho.
      destruct (IH (fst (check_and_consume self key t))) as [IH1 IH2].
      + by rewrite check_max_requests.
      + exact Hw'.
      + split; [constructor; [exact Ho | exact IH1] | exact IH2]. }
  apply H; done.
Qed.

(** C7. When a call is rejected by a limiter with [max_requests >= 1], at
    least [max_requests] entries were retained, and the message states
    [period - (now - oldest)] rounded down to whole seconds, where [oldest]
    is the least of the retained entries; that wait is positive. *)
Theorem rejection_message_states_remaining_wait
    (self : RateLimiter) (key : string) (now : Q) (message : option string) :
  (1 <= max_requests self)%Z ->
  snd (check_and_consume self key now) = Return (false, message) ->
  let retained := window (fst (check_and_consume self key now)) key in
  exists oldest : Q,
    retained = unexpired (period_seconds self) now (window self key) /\
    (max_requests self <= Z.of_nat (length retained))%Z /\
    In oldest retained /\
    (forall x, In x retained -> (oldest <= x)%Q) /\
    (0 < inject_Z (period_seconds self) - (now - oldest))%Q /\
    message = Some ("请求过于频繁，请等待 "
                    +:+ str_of_int (Qfloor (inject_Z (period_seconds self) - (now - oldest)))
                    +:+ " 秒后再试").
Proof.
  intros Hmax Hout retained. subst retained.
  rewrite check_window. rewrite check_outcome in Hout. cbv zeta in *.
  set (kept := unexpired _ _ _) in *.
  destruct (Z.leb_spec (max_requests self) (Z.of_nat (length kept))) as [Hfull|];
    [|discriminate].
  destruct (py_min kept) as [oldest|e] eqn:Hmin; [|discriminate].
  injection Hout as <-.
  destruct (py_min_least _ _ Hmin) as [Hin Hleast].
  assert (0 < inject_Z (period_seconds self) - (now - oldest))%Q as Hpos.
  { apply unexpired_spec in Hin as [_ Hin]. lra. }
  exists oldest. repeat split; try done.
  unfold too_frequent_message. rewrite int_of_float_floor; [done|].
  by apply Qlt_le_weak.
Qed.

(** C10. A call appends its timestamp exactly when it is let through: the
    window it leaves is the unexpired entries followed by [now] when the
    call returns allowed, and the unexpired entries alone otherwise; the
    windows of other keys are untouched.  A rejected call does not change
    what any later call returns nor the limiter that call leaves: rejections
    do not extend the wait. *)
Theorem rejected_call_only_prunes
    (self : RateLimiter) (key : string) (now later : Q) :
  (now <= later)%Q ->
  let kept := unexpired (period_seconds self) now (window self key) in
  let after := fst (check_and_consume self key now) in
  let outcome := snd (check_and_consume self key now) in
  sublist kept (window self key) /\
  (forall k, k <> key -> requests after !! k = requests self !! k) /\
  (allowed outcome = true /\ window after key = kept ++ [now] \/
   allowed outcome = false /\ window after key = kept) /\
  (rejected outcome = true ->
   check_and_consume after key later = check_and_consume self key later).
Proof.
  intros Hlater kept after outcome.
  split; [|split; [|split]].
  - apply unexpired_sublist.
  - intros k Hk. by apply check_other_key.
  - subst after outcome. rewrite check_window, check_outcome. cbv zeta. fold kept.
    destruct (Z.leb _ _); [right | left; done].
    split; [|done]. by destruct (py_min kept) as [m|e].
  - intros Hrej.
    assert (window after key = kept) as Hw.
    { subst after outcome. rewrite check_window. rewrite check_outcome in Hrej.
      cbv zeta in *. fold kept in Hrej |- *. by destruct (Z.leb _ _). }
    assert (requests after = <[key := kept]> (requests self)) as Hreq.
    { subst after outcome. rewrite check_and_consume_eq in Hrej |- *.
      cbv zeta in *. fold kept in Hrej |- *. by destruct (Z.leb _ _). }
    pose proof (unexpired_later (period_seconds self) now later
                  (window self key) Hlater) as Hsame.
    fold kept in Hsame.
    rewrite !check_and_consume_eq. cbv zeta.
    replace (period_seconds after) with (period_seconds self)
      by (symmetry; apply check_period_seconds).
    replace (max_requests after) with (max_requests self)
      by (symmetry; apply check_max_requests).
    rewrite Hw, Hsame. unfold set_requests.
    replace (period_seconds after) with (period_seconds self)
      by (symmetry; apply check_period_seconds).
    replace (max_requests after) with (max_requests self)
      by (symmetry; apply check_max_requests).
    rewrite Hreq, !insert_insert_eq. done.
Qed.

(** The three theorems above at a limiter of one request per ten seconds
    (two for the first), with a request on record at second 1. *)
Lemma sliding_window_witness :
  forallb allowed (snd (calls (mkRateLimiter 2 10 ∅) "u" [1; 2]%Q)) = true /\
  rejected (snd (check_and_consume
                   (fst (calls (mkRateLimiter 2 10 ∅) "u" [1; 2]%Q)) "u" 3%Q)) = true /\
  snd (check_and_consume
         (fst (calls (mkRateLimiter 2 10 ∅) "u" [1; 2]%Q)) "u" 11%Q)
  = Return (true, None).
Proof.
  assert (1 <= 2)%Z as HN by lia.
  assert (window (mkRateLimiter 2 10 ∅) "u" = []) as Hfresh by (vm_compute; reflexivity).
  destruct (sliding_window_allows_N_per_period 2 10 ∅ "u" 1%Q [2%Q] 3%Q
              HN Hfresh eq_refl eq_refl) as (H1 & H2 & _).
  destruct (sliding_window_allows_N_per_period 2 10 ∅ "u" 1%Q [2%Q] 11%Q
              HN Hfresh eq_refl eq_refl) as (_ & _ & H3 & _).
  split; [exact H1|]. split; [apply H2; reflexivity|].
  apply H3. unfold Qle. cbn. lia.
Defined.

Lemma rejection_message_witness :
  exists oldest : Q,
    In oldest (window (mkRateLimiter 1 10 {[ "u" := [1%Q] ]}) "u") /\
    Some "请求过于频繁，请等待 6 秒后再试"
    = Some ("请求过于频繁，请等待 "
            +:+ str_of_int (Qfloor (inject_Z 10 - ((9 # 2) - oldest)))
            +:+ " 秒后再试").
Proof.
  assert (1 <= 1)%Z as Hmax by lia.
  assert (snd (check_and_consume (mkRateLimiter 1 10 {[ "u" := [1%Q] ]}) "u" (9 # 2)%Q)
          = Return (false, Some "请求过于频繁，请等待 6 秒后再试")) as Hout
    by (vm_compute; reflexivity).
  destruct (rejection_message_states_remaining_wait
              (mkRateLimiter 1 10 {[ "u" := [1%Q] ]}) "u" (9 # 2)%Q
              (Some "请求过于频繁，请等待 6 秒后再试") Hmax Hout)
    as (oldest & Hkept & _ & Hin & _ & _ & Hmsg).
  exists oldest. split; [|exact Hmsg].
  rewrite Hkept in Hin. apply rate_limiter_facts.unexpired_spec in Hin as [Hin _].
  exact Hin.
Defined.

Lemma rejected_call_witness :
  check_and_consume
    (fst (check_and_consume (mkRateLimiter 1 10 {[ "u" := [1%Q] ]}) "u" 2%Q)) "u" 3%Q
  = check_and_consume (mkRateLimiter 1 10 {[ "u" := [1%Q] ]}) "u" 3%Q.
Proof.
  assert (2 <= 3)%Q as Hlater by (unfold Qle; cbn; lia).
  destruct (rejected_call_only_prunes
              (mkRateLimiter 1 10 {[ "u" := [1%Q] ]}) "u" 2%Q 3%Q Hlater)
    as (_ & _ & _ & H).
  apply H. vm_compute. reflexivity.
Defined.

End rate_limiter_spec.

(** ** The configuration loader *)

Module config_facts.
Import config.

Lemma section_cases (config : list (string * PyVal)) (name : string) :
  (section_is_dict config name = true /\
   exists d, dict_get config name (PDict []) = PDict d) \/
  (section_is_dict config name = false /\
   forall k v, py_get (dict_get config name (PDict [])) k v = Raise AttributeError).
Proof.
  unfold section_is_dict, dict_get.
  destruct (dict_lookup config name) as [[]|]; eauto.
Qed.

Ltac section_case config name :=
  let d := fresh "d" in
  let Hd := fresh "Hd" in
  let Hs := fresh "Hs" in
  destruct (section_cases config name) as [[Hs [d Hd]]|[Hs Hd]];
  rewrite Hs; rewrite ?Hd; cbn [py_get bind andb].

Lemma load_config_outcome (config : list (string * PyVal)) :
  if forallb (section_is_dict config) sections
  then exists cfg, _load_config config = Return cfg
  else _load_config config = Raise AttributeError.
Proof.
  unfold _load_config, sections. cbn [forallb].
  section_case config "api_settings"; [|done].
  section_case config "image_generation_settings"; [|done].
  section_case config "persona_settings"; [|done].
  section_case config "retry_settings"; [|done].
  section_case config "rate_limit_settings"; [|done].
  eauto.
Qed.

Lemma strip_clean_key (s : string) : (strip s =? "")%string = false -> clean_key (strip s).
Proof.
  intros H. split; [|apply strip_clean].
  intros E. rewrite E in H. discriminate.
Qed.

Lemma clean_keys_clean (l : list PyVal) : Forall clean_key (clean_keys l).
Proof.
  induction l as [|v l IH]; cbn [clean_keys]; [constructor|].
  destruct v; try exact IH.
  destruct (strip s =? "")%string eqn:E; cbn [negb]; [exact IH|].
  constructor; [by apply strip_clean_key | exact IH].
Qed.

Lemma load_api_keys_clean (settings : list (string * PyVal)) :
  Forall clean_key (load_api_keys settings).
Proof.
  unfold load_api_keys.
  destruct (dict_has settings "api_keys").
  - destruct (if truthy _ then _ else _); try constructor. apply clean_keys_clean.
  - destruct (dict_lookup settings "api_key") as [[]|]; try constructor.
    destruct (strip s =? "")%string eqn:E; cbn [negb]; constructor; [|constructor].
    by apply strip_clean_key.
Qed.

Lemma strip_fixed (k : string) : clean_key k -> strip k = k.
Proof.
  intros (_ & Hs & He). unfold strip.
  by rewrite (lstrip_of_fixed k Hs), (rstrip_of_fixed k He).
Qed.

Lemma clean_keys_strs (l : list PyVal) :
  clean_keys l = List.filter (fun k => negb (k =? "")%string) (List.map strip (strs l)).
Proof.
  induction l as [|v l IH]; [done|].
  destruct v; cbn [clean_keys strs List.map List.filter]; try exact IH.
  destruct (negb _); by rewrite IH.
Qed.

Lemma load_config_api_keys (config : list (string * PyVal)) (cfg : ConfigLoader) :
  _load_config config = Return cfg ->
  exists provider_overrides,
    py_get (dict_get config "api_settings" (PDict [])) "provider_overrides" (PList [])
      = Return provider_overrides /\
    api_keys cfg = load_api_keys (doubao_settings_of provider_overrides).
Proof.
  unfold _load_config.
  repeat (match goal with
          | |- context [bind (py_get ?v ?k ?d) _] =>
              destruct (py_get v k d) as [?|?]; cbn [bind]; [|discriminate]
          end).
  intros [= <-]. cbn [api_keys]. eauto.
Qed.

End config_facts.

Module config_spec.
Import config config_facts.

(** C2, as stated, fails: a section that is present but is no mapping makes
    the construction raise [AttributeError]. *)
Lemma malformed_section_raises :
  _load_config [("rate_limit_settings", PNone)] = Raise AttributeError.
Proof. reflexivity. Qed.

(** C2, amended.  The construction returns exactly when each of the five
    sections that is present is a mapping, and raises [AttributeError]
    otherwise; from the empty mapping it yields the documented defaults;
    and a section that is missing leaves its settings at their defaults. *)
Theorem load_config_returns_on_dict_sections (config : list (string * PyVal)) :
  (forallb (section_is_dict config) sections = true <->
   exists cfg, _load_config config = Return cfg) /\
  (forallb (section_is_dict config) sections = false <->
   _load_config config = Raise AttributeError) /\
  _load_config [] = Return defaults /\
  (rate_limit_max_requests defaults = PInt 5 /\
   rate_limit_period defaults = PInt 60 /\
   api_keys defaults = []) /\
  (forall cfg, _load_config config = Return cfg ->
     (dict_lookup config "api_settings" = None ->
        provider_id cfg = provider_id defaults /\ api_type cfg = api_type defaults /\
        model cfg = model defaults /\ api_keys cfg = [] /\
        endpoint_id cfg = endpoint_id defaults /\ api_base cfg = api_base defaults /\
        default_size cfg = default_size defaults /\ watermark cfg = watermark defaults /\
        optimize_prompt_mode cfg = optimize_prompt_mode defaults) /\
     (dict_lookup config "image_generation_settings" = None ->
        resolution cfg = PStr "1K" /\ aspect_ratio cfg = PStr "1:1") /\
     (dict_lookup config "persona_settings" = None ->
        persona_reference_image cfg = PList [] /\ enable_auto_outfit cfg = PBool true) /\
     (dict_lookup config "retry_settings" = None ->
        max_attempts_per_key cfg = PInt 3 /\ enable_smart_retry cfg = PBool true /\
        total_timeout cfg = PInt 120) /\
     (dict_lookup config "rate_limit_settings" = None ->
        rate_limit_enabled cfg = PBool true /\ rate_limit_max_requests cfg = PInt 5 /\
        rate_limit_period cfg = PInt 60)).
Proof.
  pose proof (load_config_outcome config) as H.
  split; [|split; [|split; [reflexivity|split; [done|]]]].
  - destruct (forallb _ _); [by split | ].
    split; [done|]. intros [cfg Hcfg]. congruence.
  - destruct (forallb _ _); [|by split].
    destruct H as [cfg Hcfg]. split; [done|]. congruence.
  - clear H. intros cfg. unfold _load_config.
    repeat (match goal with
            | |- context [bind (py_get ?v ?k ?d) _] =>
                let E := fresh "E" in
                destruct (py_get v k d) as [?|?] eqn:E; cbn [bind]; [|discriminate]
            end).
    intros [= <-].
    repeat match goal with |- _ /\ _ => split end;
      intros Hmiss; unfold dict_get in *; rewrite Hmiss in *;
      cbn in *; simplify_eq; repeat split; reflexivity.
Qed.

(** C5, as stated, fails: a key configured twice is kept twice. *)
Lemma duplicate_keys_are_kept :
  exists cfg,
    _load_config (with_doubao_override [("api_keys", PList [PStr "a"; PStr "a"])])
      = Return cfg /\
    api_keys cfg = ["a"; "a"] /\
    (NoDup (api_keys cfg) -> False).
Proof.
  eexists. split; [reflexivity|]. split; [reflexivity|].
  cbn. intros H. apply NoDup_cons_1_1 in H. apply H. by left.
Qed.

(** C5, amended.  Whatever the configuration, every key of the [api_keys]
    the loader produces is a non-empty string without white space at either
    end, which stripping leaves as it is; and the empty list is a state the
    loader produces. *)
Theorem api_keys_are_trimmed_and_non_empty :
  (forall config cfg,
      _load_config config = Return cfg ->
      Forall (fun k => clean_key k /\ strip k = k) (api_keys cfg)) /\
  (exists cfg, _load_config [] = Return cfg /\ api_keys cfg = []).
Proof.
  split.
  - intros config cfg Hload.
    destruct (load_config_api_keys config cfg Hload) as (po & _ & ->).
    eapply Forall_impl; [apply load_api_keys_clean|].
    intros k Hk. split; [exact Hk | by apply strip_fixed].
  - eexists. split; reflexivity.
Qed.

(** C6.  For a configuration that loads, with [matched] the first provider
    override whose [__template_key] is ['doubao'] (less that key): when
    [matched] has a list under [api_keys], the keys are its strings, each
    stripped, the empty ones dropped; when it has no [api_keys] but a string
    under [api_key], the keys are that string stripped, or none if nothing
    is left of it; when it has neither, there are no keys.  The examples of
    the specification follow. *)
Theorem api_keys_normalization :
  (forall config cfg,
      _load_config config = Return cfg ->
      exists provider_overrides,
        py_get (dict_get config "api_settings" (PDict [])) "provider_overrides" (PList [])
          = Return provider_overrides /\
        let matched := doubao_settings_of provider_overrides in
        (forall l, dict_lookup matched "api_keys" = Some (PList l) ->
           api_keys cfg
           = List.filter (fun k => negb (k =? "")%string) (List.map strip (strs l))) /\
        (forall k, dict_lookup matched "api_keys" = None ->
           dict_lookup matched "api_key" = Some (PStr k) ->
           api_keys cfg = if (strip k =? "")%string then [] else [strip k]) /\
        (dict_lookup matched "api_keys" = None ->
         dict_lookup matched "api_key" = None ->
         api_keys cfg = [])) /\
  (exists cfg,
      _load_config (with_doubao_override [("api_keys", PList [PStr " a "; PStr ""; PStr "b"])])
        = Return cfg /\ api_keys cfg = ["a"; "b"]) /\
  (exists cfg,
      _load_config (with_doubao_override [("api_key", PStr " x ")]) = Return cfg /\
      api_keys cfg = ["x"]) /\
  (exists cfg,
      _load_config (with_doubao_override [("api_key", PStr "")]) = Return cfg /\
      api_keys cfg = []) /\
  (exists cfg,
      _load_config (with_doubao_override [("api_key", PStr "   ")]) = Return cfg /\
      api_keys cfg = []) /\
  (exists cfg,
      _load_config (with_doubao_override []) = Return cfg /\ api_keys cfg = []).
Proof.
  split; [|repeat split; eexists; split; reflexivity].
  intros config cfg Hload.
  destruct (load_config_api_keys config cfg Hload) as (po & Hpo & ->).
  exists po. split; [exact Hpo|]. cbv zeta.
  set (matched := doubao_settings_of po). unfold load_api_keys, dict_has, dict_get.
  repeat match goal with |- _ /\ _ => split end.
  - intros l ->. rewrite <- clean_keys_strs. by destruct l.
  - intros k -> ->. by destruct (strip k =? "")%string.
  - by intros -> ->.
Qed.

End config_spec.

(** ** The API client *)

Module api_client_facts.
Import api_client.

Lemma try_except_returns {A} (body : M A) (handler : PyExc -> M A) (s : Sys) :
  (forall e s', exists a, fst (handler e s') = Return a) ->
  exists a, fst (try_except body handler s) = Return a.
Proof.
  intros H. unfold try_except.
  destruct (body s) as [[a|e] s']; [by exists a | apply H].
Qed.

Lemma add_reference_image_readable (env : Env) (reference_image : option string)
    (payload : list (string * PyVal)) (s : Sys) :
  reference_readable env reference_image = true ->
  exists payload' s',
    add_reference_image env reference_image payload s = (Return payload', s') /\
    self s' = self s.
Proof.
  unfold reference_readable, add_reference_image.
  destruct reference_image as [path|]; [|by eexists _, _].
  destruct (negb _ && _); [|by eexists _, _].
  unfold mbind, emit, lift, ret.
  destruct (read_bytes env path); [|discriminate]. by eexists _, _.
Qed.

Lemma add_reference_image_raises (env : Env) (reference_image : option string)
    (payload : list (string * PyVal)) (s s' : Sys) (e : PyExc) :
  add_reference_image env reference_image payload s = (Raise e, s') ->
  exists path,
    reference_image = Some path /\ read_bytes env path = Raise e /\
    events s' = events s ++ [FileRead path].
Proof.
  unfold add_reference_image.
  destruct reference_image as [path|]; [|discriminate].
  destruct (negb _ && _); [|discriminate].
  unfold mbind, emit, lift, ret. cbn [self events clock_reads].
  destruct (read_bytes env path) as [b|e'] eqn:E; intros [= <- <-]. eauto.
Qed.

Lemma get_session_returns (s : Sys) :
  exists s', _get_session s = (Return OpenSession, s') /\
             api_keys (self s') = api_keys (self s).
Proof.
  unfold _get_session, mbind, get_self.
  destruct (session (self s)); by eexists.
Qed.

(** The shape of a call once the keys are there and the reference image
    is dealt with: all that follows is inside the [try]. *)
Lemma generate_image_with_keys (env : Env) (s : Sys) (prompt : string)
    (reference_image : option string) (resolution : string) :
  api_keys (self s) <> [] ->
  reference_readable env reference_image = true ->
  exists request s1,
    generate_image env prompt reference_image resolution s
    = try_except
        (mbind (emit (Posted request))
           (fun _ => mbind (lift (post env request)) (handle_response env)))
        (fun e => ret (false, PStr ("API请求异常: " +:+ str_exc env e))) s1.
Proof.
  intros Hkeys Hread. unfold generate_image.
  unfold mbind at 1. unfold get_self at 1.
  destruct (api_keys (self s)) as [|k ks] eqn:Ek; [done|].
  match goal with
  | |- context [add_reference_image env reference_image ?p] =>
      destruct (add_reference_image_readable env reference_image p s Hread)
        as (payload' & s0 & Hadd & _)
  end.
  unfold mbind at 1. rewrite Hadd.
  destruct (get_session_returns s0) as (s1 & Hs1 & _).
  unfold mbind at 1. rewrite Hs1. eauto.
Qed.

(** A call raises only when reading the reference image raises. *)
Lemma generate_image_raises (env : Env) (s s' : Sys) (prompt : string)
    (reference_image : option string) (resolution : string) (e : PyExc) :
  generate_image env prompt reference_image resolution s = (Raise e, s') ->
  exists path,
    reference_image = Some path /\ read_bytes env path = Raise e /\
    events s' = events s ++ [FileRead path].
Proof.
  unfold generate_image.
  unfold mbind at 1. unfold get_self at 1.
  destruct (api_keys (self s)) as [|k ks]; [discriminate|].
  unfold mbind at 1.
  match goal with
  | |- context [add_reference_image env reference_image ?p s] =>
      destruct (add_reference_image env reference_image p s) as [[payload'|e'] s0] eqn:Hadd
  end.
  - destruct (get_session_returns s0) as (s1 & Hs1 & _).
    unfold mbind at 1. rewrite Hs1.
    match goal with
    | |- context [try_except ?b ?h s1] =>
        destruct (try_except_returns b h s1) as [a Ha]
    end.
    + intros e0 s2. eexists. reflexivity.
    + intros Hrun. rewrite Hrun in Ha. discriminate.
  - intros [= -> ->]. by apply add_reference_image_raises in Hadd.
Qed.

(** *** The resolution mapping *)

Lemma wxh_char_plain (c : ascii) :
  wxh_char c = true ->
  isspace c = false /\ lower_char c = c /\ Ascii.eqb c " " = false.
Proof. destruct c as [[] [] [] [] [] [] [] []]; cbv; intros; done. Qed.

Lemma wxh_lower (s : string) : all_chars wxh_char s = true -> lower s = s.
Proof.
  induction s as [|c r IH]; [done|]. cbn [all_chars lower].
  intros [Hc Hr]%andb_true_iff.
  destruct (wxh_char_plain c Hc) as (_ & -> & _). by rewrite IH.
Qed.

Lemma wxh_remove_space (s : string) :
  all_chars wxh_char s = true -> remove_char " " s = s.
Proof.
  induction s as [|c r IH]; [done|]. cbn [all_chars remove_char].
  intros [Hc Hr]%andb_true_iff.
  destruct (wxh_char_plain c Hc) as (_ & _ & ->). by rewrite IH.
Qed.

Lemma wxh_no_space_at_ends (s : string) :
  all_chars wxh_char s = true ->
  starts_with_space s = false /\ ends_with_space s = false.
Proof.
  induction s as [|c r IH]; [done|]. cbn [all_chars].
  intros [Hc Hr]%andb_true_iff.
  destruct (wxh_char_plain c Hc) as (Hsp & _ & _). split; [exact Hsp|].
  destruct r as [|c' r']; [exact Hsp|].
  rewrite ends_with_space_cons by done. by apply IH.
Qed.

Lemma map_resolution_table (resolution model : string) :
  _map_resolution resolution model = resolution_table (token resolution).
Proof.
  unfold _map_resolution, token.
  destruct (resolution =? "")%string eqn:E1.
  - apply String.eqb_eq in E1 as ->. reflexivity.
  - destruct (strip resolution =? "")%string eqn:E2; [|reflexivity].
    apply String.eqb_eq in E2 as ->. reflexivity.
Qed.

Lemma strip_token (s : string) : strip (token s) = token s.
Proof.
  unfold token, normalize.
  by rewrite strip_remove_space, strip_lower, strip_idem.
Qed.

Lemma token_idem (s : string) : token (token s) = token s.
Proof.
  unfold token at 1. rewrite strip_token. unfold token, normalize.
  by rewrite remove_space_lower, remove_char_idem, <- remove_space_lower, lower_idem.
Qed.

Lemma token_lower (s : string) : token (lower s) = token s.
Proof. unfold token, normalize. by rewrite strip_lower, lower_idem. Qed.

Lemma token_surrounded (a s b : string) :
  all_chars isspace a = true -> all_chars isspace b = true ->
  token (a +:+ s +:+ b) = token s.
Proof. intros Ha Hb. unfold token. by rewrite strip_app_space. Qed.

Lemma token_remove_space (s : string) : token (remove_char " " s) = token s.
Proof.
  unfold token, normalize.
  by rewrite strip_remove_space, remove_space_lower, remove_char_idem,
    <- remove_space_lower.
Qed.

Lemma token_wxh (s : string) : all_chars wxh_char s = true -> token s = s.
Proof.
  intros H. destruct (wxh_no_space_at_ends s H) as [Hs He].
  unfold token, normalize, strip.
  by rewrite (lstrip_of_fixed s Hs), (rstrip_of_fixed s He), (wxh_lower s H),
    (wxh_remove_space s H).
Qed.

Lemma isdecimal_wxh (s : string) :
  all_chars isdecimal s = true -> all_chars wxh_char s = true.
Proof.
  induction s as [|c r IH]; [done|]. cbn [all_chars]. unfold wxh_char at 1.
  intros [-> Hr]%andb_true_iff. by rewrite IH.
Qed.

(** What the regular expression accepts, when it does not end in a
    newline, is made of digits and one [x]. *)
Lemma re_match_wxh_chars (s : string) :
  re_match_wxh s = true -> ends_with_space s = false ->
  all_chars wxh_char s = true.
Proof.
  unfold re_match_wxh.
  destruct (span isdecimal s) as [w after_w] eqn:Ew.
  apply span_spec in Ew as [-> Hw].
  intros [_ H]%andb_true_iff.
  destruct after_w as [|c after_x]; [discriminate|].
  assert (c = "x"%char) as ->.
  { destruct c as [[] [] [] [] [] [] [] []]; try discriminate. reflexivity. }
  destruct (span isdecimal after_x) as [h after_h] eqn:Eh.
  apply span_spec in Eh as [-> Hh].
  apply andb_true_iff in H as [_ H].
  apply orb_true_iff in H as [->%String.eqb_eq | ->%String.eqb_eq].
  - intros _. rewrite !all_chars_app, (isdecimal_wxh w Hw). cbn [all_chars].
    rewrite all_chars_app, (isdecimal_wxh h Hh). reflexivity.
  - intros Hend. exfalso.
    replace (w +:+ String "x" (h +:+ String "010" ""))
      with ((w +:+ String "x" h) +:+ String "010" "") in Hend.
    + rewrite ends_with_space_snoc in Hend. discriminate.
    + clear. induction w as [|c r IH]; [done|]. rewrite !append_cons. by rewrite IH.
Qed.

End api_client_facts.

Module api_client_spec.
Import api_client api_client_facts.

(** C4, as stated, fails: a tab inside the token is white space, and it is
    not ignored. *)
Lemma interior_tab_is_not_ignored :
  without_whitespace (String "1" (String "009" "k")) = "1k" /\
  _map_resolution (String "1" (String "009" "k")) "" = "2K" /\
  _map_resolution "1k" "" = "1K".
Proof. repeat split. Qed.

(** C4, amended.  [_map_resolution] is a total function of the token of
    its input (the input stripped of white space at both ends, put in lower
    case, its spaces removed), whatever the model: it returns the token
    when the token is 3-5 digits, [x], 3-5 digits, ["1K"] for 1k and 1024,
    ["2K"] for 2k and 2048, ["4K"] for 4k and 4096, and ["2K"] for anything
    else.  It is idempotent.  Inputs that differ in case, in white space
    at either end, or in spaces anywhere map alike.  An input that already
    is a WIDTHxHEIGHT token is returned as it is. *)
Theorem map_resolution_total_idempotent (resolution model : string) :
  let result := _map_resolution resolution model in
  result = resolution_table (token resolution) /\
  (re_match_wxh (token resolution) = true /\ result = token resolution \/
   re_match_wxh (token resolution) = false /\
   (result = "1K" \/ result = "2K" \/ result = "4K")) /\
  (forall model', _map_resolution result model' = result) /\
  (forall other model',
      lower other = lower resolution -> _map_resolution other model' = result) /\
  (forall before after model',
      all_chars isspace before = true -> all_chars isspace after = true ->
      _map_resolution (before +:+ resolution +:+ after) model' = result) /\
  (forall model', _map_resolution (remove_char " " resolution) model' = result) /\
  (re_match_wxh resolution = true -> ends_with_space resolution = false ->
   result = resolution) /\
  (_map_resolution " 800X600 " model = "800x600" /\
   _map_resolution "4k" model = "4K" /\
   _map_resolution "4096" model = "4K" /\
   _map_resolution "1k" model = "1K" /\
   _map_resolution "1024" model = "1K" /\
   _map_resolution "2k" model = "2K" /\
   _map_resolution "2048" model = "2K" /\
   _map_resolution "" model = "2K" /\
   _map_resolution "weird" model = "2K").
Proof.
  intros result. subst result. rewrite map_resolution_table.
  assert (re_match_wxh (token resolution) = true /\
          resolution_table (token resolution) = token resolution \/
          re_match_wxh (token resolution) = false /\
          (resolution_table (token resolution) = "1K" \/
           resolution_table (token resolution) = "2K" \/
           resolution_table (token resolution) = "4K")) as Hvocab.
  { unfold resolution_table.
    destruct (re_match_wxh (token resolution)); [by left | right].
    split; [done|].
    destruct (_ || _); [by left|]. destruct (_ || _); [by right; left|].
    destruct (_ || _); [by right; right | by right; left]. }
  split; [done|]. split; [exact Hvocab|].
  split; [|split; [|split; [|split; [|split]]]].
  - intros model'. rewrite map_resolution_table.
    destruct Hvocab as [[Hm E] | [_ [E | [E | E]]]]; rewrite E; [|reflexivity..].
    rewrite token_idem. unfold resolution_table. by rewrite Hm.
  - intros other model' Hcase. rewrite map_resolution_table.
    by rewrite <- (token_lower other), Hcase, token_lower.
  - intros before after model' Hb Ha. rewrite map_resolution_table.
    by rewrite token_surrounded.
  - intros model'. rewrite map_resolution_table. by rewrite token_remove_space.
  - intros Hmatch Hend.
    rewrite (token_wxh resolution (re_match_wxh_chars resolution Hmatch Hend)).
    unfold resolution_table. by rewrite Hmatch.
  - repeat split.
Qed.

Lemma not_200_reports_status_and_body (env : Env) (s : Sys) (prompt : string)
    (reference_image : option string) (resolution : string)
    (response : Response) (body : string) :
  api_keys (self s) <> [] ->
  reference_readable env reference_image = true ->
  (forall request, post env request = Return response) ->
  (status response =? 200)%Z = false ->
  text response = Return body ->
  fst (generate_image env prompt reference_image resolution s)
  = Return (false, PStr ("API请求失败: " +:+ str_of_int (status response)
                         +:+ " - " +:+ body)).
Proof.
  intros Hkeys Hread Hpost Hstatus Htext.
  destruct (generate_image_with_keys env s prompt reference_image resolution Hkeys Hread)
    as (request & s1 & ->).
  unfold try_except, mbind, emit, lift, handle_response.
  rewrite Hpost, Hstatus. cbn [negb]. unfold mbind, lift, ret. by rewrite Htext.
Qed.

(** C8.  When keys are configured, the reference image (if any) can be
    read, and the server answers the request with a status outside 200..299
    and a body that can be read, [generate_image] returns a failure whose
    text is ["API请求失败: "], the status, [" - "] and the body; for status
    500 and body ["server error"] that is
    ["API请求失败: 500 - server error"]. *)
Theorem non_2xx_reports_status_and_body (env : Env) (s : Sys) (prompt : string)
    (reference_image : option string) (resolution : string)
    (response : Response) (body : string) :
  api_keys (self s) <> [] ->
  reference_readable env reference_image = true ->
  (forall request, post env request = Return response) ->
  is2xx (status response) = false ->
  text response = Return body ->
  fst (generate_image env prompt reference_image resolution s)
  = Return (false, PStr ("API请求失败: " +:+ str_of_int (status response)
                         +:+ " - " +:+ body)) /\
  (status response = 500%Z -> body = "server error" ->
   fst (generate_image env prompt reference_image resolution s)
   = Return (false, PStr "API请求失败: 500 - server error")).
Proof.
  intros Hkeys Hread Hpost H2xx Htext.
  assert ((status response =? 200)%Z = false) as Hstatus.
  { unfold is2xx in H2xx. apply Z.eqb_neq. intros E. rewrite E in H2xx. discriminate. }
  pose proof (not_200_reports_status_and_body env s prompt reference_image resolution
                response body Hkeys Hread Hpost Hstatus Htext) as H.
  split; [exact H|]. intros E1 E2. rewrite H, E1, E2. reflexivity.
Qed.

(** C9.  Without keys, [generate_image] returns the failure
    ["API密钥未配置"] and leaves the system as it found it: no session is
    created and nothing is sent.  With keys and a reference image that can
    be read, the call always returns, and what it returns is a success or a
    failure with a text; an exception raised by the POST, by reading the
    body of a response that is not 200, by decoding the JSON of a 200
    response, or by handling a decoded body of the wrong type, comes back as
    the failure ["API请求异常: "] followed by the text of the exception.
    The call raises only when reading the reference image raises, before
    anything is sent. *)
Theorem transport_exceptions_are_returned (env : Env) (s : Sys) (prompt : string)
    (reference_image : option string) (resolution : string) :
  let run := generate_image env prompt reference_image resolution s in
  let failure e := Return (false, PStr ("API请求异常: " +:+ str_exc env e)) in
  (api_keys (self s) = [] -> run = (Return (false, PStr "API密钥未配置"), s)) /\
  (api_keys (self s) <> [] -> reference_readable env reference_image = true ->
   (exists result, fst run = Return result /\
                   (fst result = true \/ exists msg, result = (false, PStr msg))) /\
   (forall e, (forall request, post env request = Raise e) -> fst run = failure e) /\
   (forall response e,
       (forall request, post env request = Return response) ->
       (status response =? 200)%Z = false -> text response = Raise e ->
       fst run = failure e) /\
   (forall response e,
       (forall request, post env request = Return response) ->
       status response = 200%Z -> json response = Raise e ->
       fst run = failure e) /\
   (forall response n,
       (forall request, post env request = Return response) ->
       status response = 200%Z -> json response = Return (PInt n) ->
       fst run = failure TypeError)) /\
  (forall e, fst run = Raise e ->
     exists path, reference_image = Some path /\ read_bytes env path = Raise e /\
                  List.filter is_posted (events (snd run))
                  = List.filter is_posted (events s)).
Proof.
  intros run failure. split; [|split].
  - intros Hkeys. subst run. unfold generate_image, mbind, get_self.
    by rewrite Hkeys.
  - intros Hkeys Hread.
    destruct (generate_image_with_keys env s prompt reference_image resolution Hkeys Hread)
      as (request & s1 & Hrun).
    fold run in Hrun. rewrite Hrun. clear Hrun run.
    split; [|split; [|split; [|split]]].
    + unfold try_except.
      destruct (mbind _ _ s1) as [[[ok v]|e] s2] eqn:Hbody; cbn [fst ret].
      * exists (ok, v). split; [done|]. destruct ok; [by left|right].
        revert Hbody. unfold mbind, emit, lift, handle_response.
        destruct (post env request) as [response|e]; [|discriminate].
        destruct (negb _).
        { unfold mbind, lift, ret. destruct (text response); [|discriminate].
          intros [= <- _]. eauto. }
        unfold mbind, lift, ret.
        destruct (json response) as [data|]; [|discriminate].
        destruct (py_in "data" data) as [[]|]; cbn [negb]; try discriminate;
          [|intros [= <- _]; eauto].
        destruct (py_getitem data "data") as [items|]; [|discriminate].
        destruct (negb (truthy items)); [intros [= <- _]; eauto|].
        destruct (py_iter items) as [l|]; [|discriminate].
        destruct (collect_image_urls env l [] _) as [[[|first rest]|] s3];
          [intros [= <- _]; eauto | discriminate | discriminate].
      * eexists. split; [reflexivity|]. right. eauto.
    + intros e Hpost. unfold try_except, mbind, emit, lift. by rewrite Hpost.
    + intros response e Hpost Hstatus Htext.
      unfold try_except, mbind, emit, lift, handle_response.
      rewrite Hpost, Hstatus. cbn [negb]. unfold mbind, lift. by rewrite Htext.
    + intros response e Hpost Hstatus Hjson.
      unfold try_except, mbind, emit, lift, handle_response.
      rewrite Hpost, Hstatus. cbn [negb Z.eqb]. unfold mbind, lift.
      by rewrite Hjson.
    + intros response n Hpost Hstatus Hjson.
      unfold try_except, mbind, emit, lift, handle_response.
      rewrite Hpost, Hstatus. cbn [negb Z.eqb]. unfold mbind, lift.
      by rewrite Hjson.
  - intros e Hraise. destruct run as [o s'] eqn:Hrun. cbn [fst snd] in *. subst o.
    destruct (generate_image_raises _ _ _ _ _ _ _ Hrun) as (path & -> & Hr & Hev).
    exists path. repeat split; [done|]. rewrite Hev, List.filter_app. cbn.
    by rewrite app_nil_r.
Qed.

Lemma server_error_witness :
  fst (generate_image
         (example_env (Return (mkResponse 500 (Return "server error") (Raise ValueError))))
         "a selfie" None "1K" (fresh (__init__ ["key"] "" "endpoint")))
  = Return (false, PStr "API请求失败: 500 - server error").
Proof.
  assert (api_keys (self (fresh (__init__ ["key"] "" "endpoint"))) <> []) as Hkeys
    by discriminate.
  destruct (non_2xx_reports_status_and_body
              (example_env (Return (mkResponse 500 (Return "server error") (Raise ValueError))))
              (fresh (__init__ ["key"] "" "endpoint")) "a selfie" None "1K"
              (mkResponse 500 (Return "server error") (Raise ValueError)) "server error"
              Hkeys eq_refl (fun _ => eq_refl) eq_refl eq_refl) as [_ H].
  apply H; reflexivity.
Defined.

Lemma connection_error_witness :
  fst (generate_image
         (example_env (Raise (LibraryError "ClientConnectorError" "Cannot connect to host")))
         "a selfie" None "1K" (fresh (__init__ ["key"] "" "endpoint")))
  = Return (false, PStr "API请求异常: Cannot connect to host").
Proof.
  assert (api_keys (self (fresh (__init__ ["key"] "" "endpoint"))) <> []) as Hkeys
    by discriminate.
  destruct (transport_exceptions_are_returned
              (example_env (Raise (LibraryError "ClientConnectorError" "Cannot connect to host")))
              (fresh (__init__ ["key"] "" "endpoint")) "a selfie" None "1K")
    as (_ & H & _).
  destruct (H Hkeys eq_refl) as (_ & Hpost & _).
  apply (Hpost (LibraryError "ClientConnectorError" "Cannot connect to host")).
  intros request. reflexivity.
Defined.

End api_client_spec.

(** * Further properties *)

#[local] Set Warnings "-clear-no-such-hyp".

(** ** The rate limiter over traces *)

Module rate_limiter_traces_spec.
Import rate_limiter rate_limiter_facts rate_limiter_traces.

Lemma run_cons (self : RateLimiter) (key : string) (t : Q) (trace : list (string * Q)) :
  run self ((key, t) :: trace)
  = (fst (run (fst (check_and_consume self key t)) trace),
     snd (check_and_consume self key t)
       :: snd (run (fst (check_and_consume self key t)) trace)).
Proof.
  cbn [run]. destruct (check_and_consume self key t) as [self1 o].
  cbn [fst snd]. by destruct (run self1 trace).
Qed.

(** What a call returns and the window it leaves depend on the limiter
    through its two settings and the window of the key only. *)
Lemma check_and_consume_agree (self1 self2 : RateLimiter) (key : string) (now : Q) :
  max_requests self1 = max_requests self2 ->
  period_seconds self1 = period_seconds self2 ->
  window self1 key = window self2 key ->
  snd (check_and_consume self1 key now) = snd (check_and_consume self2 key now) /\
  window (fst (check_and_consume self1 key now)) key
  = window (fst (check_and_consume self2 key now)) key.
Proof.
  intros Hmax Hper Hwin. rewrite !check_outcome, !check_window. cbv zeta.
  by rewrite Hmax, Hper, Hwin.
Qed.

Lemma calls_agree (key : string) (times : list Q) :
  forall self1 self2,
    max_requests self1 = max_requests self2 ->
    period_seconds self1 = period_seconds self2 ->
    window self1 key = window self2 key ->
    snd (calls self1 key times) = snd (calls self2 key times) /\
    window (fst (calls self1 key times)) key = window (fst (calls self2 key times)) key.
Proof.
  induction times as [|t times IH]; intros self1 self2 Hmax Hper Hwin; [done|].
  rewrite !calls_cons. cbn [fst snd].
  destruct (check_and_consume_agree self1 self2 key t Hmax Hper Hwin) as [Ho Hw].
  destruct (IH (fst (check_and_consume self1 key t)) (fst (check_and_consume self2 key t)))
    as [IHo IHw]; rewrite ?check_max_requests, ?check_period_seconds; try done.
  by rewrite Ho, IHo.
Qed.

Lemma run_isolated (key : string) (trace : list (string * Q)) :
  forall self1 self2,
    max_requests self1 = max_requests self2 ->
    period_seconds self1 = period_seconds self2 ->
    window self1 key = window self2 key ->
    outcomes_of key trace (snd (run self1 trace))
    = snd (calls self2 key (times_of key trace)) /\
    window (fst (run self1 trace)) key
    = window (fst (calls self2 key (times_of key trace))) key.
Proof.
  induction trace as [|[k t] trace IH]; intros self1 self2 Hmax Hper Hwin; [done|].
  rewrite run_cons. cbn [fst snd outcomes_of times_of].
  destruct (k =? key)%string eqn:Ek.
  - apply String.eqb_eq in Ek as ->. rewrite calls_cons. cbn [fst snd].
    destruct (check_and_consume_agree self1 self2 key t Hmax Hper Hwin) as [Ho Hw].
    destruct (IH (fst (check_and_consume self1 key t)) (fst (check_and_consume self2 key t)))
      as [IHo IHw]; rewrite ?check_max_requests, ?check_period_seconds; try done.
    by rewrite Ho, IHo.
  - apply String.eqb_neq in Ek.
    apply IH; rewrite ?check_max_requests, ?check_period_seconds; try done.
    rewrite check_other_window; [done|]. congruence.
Qed.

(** X1.  Keys do not interfere: in any sequence of calls for any keys, the
    calls made for one key are answered, and leave the window of that key,
    exactly as if the calls for the other keys had not been made. *)
Theorem keys_are_isolated (self : RateLimiter) (key : string) (trace : list (string * Q)) :
  outcomes_of key trace (snd (run self trace))
  = snd (calls self key (times_of key trace)) /\
  window (fst (run self trace)) key
  = window (fst (calls self key (times_of key trace))) key.
Proof. by apply run_isolated. Qed.

Lemma check_capacity (self : RateLimiter) (key k : string) (now : Q) :
  (Z.of_nat (length (window self k)) <= Z.max 0 (max_requests self))%Z ->
  (Z.of_nat (length (window (fst (check_and_consume self key now)) k))
   <= Z.max 0 (max_requests self))%Z.
Proof.
  intros Hk. destruct (decide (k = key)) as [->|Hne].
  - rewrite check_window. cbv zeta.
    pose proof (unexpired_length (period_seconds self) now (window self key)) as Hlen.
    destruct (Z.leb_spec (max_requests self)
                (Z.of_nat (length (unexpired (period_seconds self) now (window self key))))).
    + lia.
    + rewrite length_app. cbn [length]. lia.
  - by rewrite check_other_window.
Qed.

Lemma run_capacity (k : string) (trace : list (string * Q)) :
  forall self,
    (Z.of_nat (length (window self k)) <= Z.max 0 (max_requests self))%Z ->
    (Z.of_nat (length (window (fst (run self trace)) k)) <= Z.max 0 (max_requests self))%Z.
Proof.
  induction trace as [|[key t] trace IH]; intros self Hk; [done|].
  rewrite run_cons. cbn [fst].
  rewrite <- (check_max_requests self key t). apply IH.
  rewrite check_max_requests. by apply check_capacity.
Qed.

(** X2.  Starting from a new limiter, whatever calls are made, for whatever
    keys and at whatever times (the clock may even run backwards), no key
    ever has more than [max_requests] timestamps on record (none at all when
    [max_requests] is not positive). *)
Theorem window_never_exceeds_quota
    (N P : Z) (trace : list (string * Q)) (key : string) :
  (Z.of_nat (length (window (fst (run (__init__ N P) trace)) key)) <= Z.max 0 N)%Z.
Proof.
  apply (run_capacity key trace (__init__ N P)).
  unfold window, __init__. cbn [requests]. rewrite lookup_empty. cbn. lia.
Qed.

Lemma check_dom (self : RateLimiter) (key : string) (now : Q) :
  dom (requests (fst (check_and_consume self key now))) = {[key]} ∪ dom (requests self).
Proof.
  rewrite check_and_consume_eq. cbv zeta.
  destruct (Z.leb _ _); cbn [fst requests set_requests]; apply dom_insert_L.
Qed.

(** X3.  The table of keys only grows: after any sequence of calls it holds
    the keys it held before and the keys that were checked, no other; no
    call removes a key. *)
Theorem key_table_only_grows (self : RateLimiter) (trace : list (string * Q)) :
  dom (requests (fst (run self trace)))
  = dom (requests self) ∪ list_to_set (List.map fst trace).
Proof.
  revert self. induction trace as [|[key t] trace IH]; intros self.
  - cbn. set_solver.
  - rewrite run_cons. cbn [fst List.map list_to_set].
    rewrite IH, check_dom. set_solver.
Qed.

Lemma accepted_app (times1 times2 : list Q) (outs1 outs2 : list (Outcome (bool * option string))) :
  length times1 = length outs1 ->
  accepted (times1 ++ times2) (outs1 ++ outs2)
  = accepted times1 outs1 ++ accepted times2 outs2.
Proof.
  revert outs1. induction times1 as [|t times1 IH]; intros [|o outs1] Hlen;
    try discriminate; [done|].
  cbn [app accepted]. injection Hlen as Hlen.
  destruct (allowed o); cbn [app]; by rewrite IH.
Qed.

Lemma nondecreasing_dup (t : Q) (l : list Q) :
  nondecreasing (t :: l) = true -> nondecreasing (t :: t :: l) = true.
Proof.
  intros H. change (nondecreasing (t :: t :: l))
    with (forallb (fun y => Qle_bool t y) (t :: l) && nondecreasing (t :: l)).
  rewrite H, andb_true_r. cbn [forallb].
  cbn [nondecreasing] in H. apply andb_true_iff in H as [-> _].
  rewrite andb_true_r. apply Qle_bool_iff, Qle_refl.
Qed.

Lemma last_cons_default {A} (l : list A) (a d d' : A) :
  List.last (a :: l) d = List.last (a :: l) d'.
Proof.
  revert a. induction l as [|b l IH]; intros a; [done|].
  change (List.last (a :: b :: l) d) with (List.last (b :: l) d).
  change (List.last (a :: b :: l) d') with (List.last (b :: l) d').
  apply IH.
Qed.

(** The window of a key, while the clock moves forward from a time [prev]
    at which it held the unexpired ones of the accepted times [acc]. *)
Lemma calls_window_accepted (key : string) (times : list Q) :
  forall self prev acc,
    (0 < period_seconds self)%Z ->
    window self key = unexpired (period_seconds self) prev acc ->
    nondecreasing (prev :: times) = true ->
    window (fst (calls self key times)) key
    = unexpired (period_seconds self) (List.last times prev)
        (acc ++ accepted times (snd (calls self key times))).
Proof.
  induction times as [|t times IH]; intros self prev acc HP Hw Hmono.
  - cbn [calls fst snd accepted List.last]. by rewrite app_nil_r.
  - rewrite calls_cons. cbn [fst snd accepted].
    assert (prev <= t)%Q as Hpt.
    { apply (nondecreasing_head prev (t :: times) Hmono). by left. }
    assert (nondecreasing (t :: times) = true) as Hmono'.
    { cbn [nondecreasing] in Hmono. by apply andb_true_iff in Hmono as [_ ?]. }
    assert (List.last (t :: times) prev = List.last times t) as ->.
    { destruct times as [|a times']; [done|].
      change (List.last (t :: a :: times') prev) with (List.last (a :: times') prev).
      apply last_cons_default. }
    pose proof (check_window self key t) as Hw1.
    pose proof (check_outcome self key t) as Ho1.
    cbv zeta in Hw1, Ho1. rewrite Hw, (unexpired_later _ prev t acc Hpt) in Hw1, Ho1.
    set (self1 := fst (check_and_consume self key t)) in *.
    assert (period_seconds self1 = period_seconds self) as HP1
      by apply check_period_seconds.
    destruct (Z.leb (max_requests self)
                (Z.of_nat (length (unexpired (period_seconds self) t acc)))) eqn:Efull.
    + assert (allowed (snd (check_and_consume self key t)) = false) as ->.
      { rewrite Ho1. by destruct (py_min _). }
      rewrite <- HP1. apply IH; rewrite ?HP1; done.
    + rewrite Ho1. cbn [allowed].
      replace (acc ++ t :: accepted times (snd (calls self1 key times)))
        with ((acc ++ [t]) ++ accepted times (snd (calls self1 key times)))
        by by rewrite <- app_assoc.
      rewrite <- HP1. apply IH; rewrite ?HP1; try done.
      rewrite Hw1. unfold unexpired. rewrite List.filter_app. f_equal.
      cbn [List.filter].
      assert (Qltb (t - t) (inject_Z (period_seconds self)) = true) as ->; [|done].
      apply Qltb_lt.
      assert (inject_Z 0 < inject_Z (period_seconds self))%Q as H0
        by (rewrite <- Zlt_Qlt; lia).
      change (inject_Z 0) with 0%Q in H0. lra.
Qed.

Lemma calls_capacity (key : string) (times : list Q) :
  forall self,
    (Z.of_nat (length (window self key)) <= Z.max 0 (max_requests self))%Z ->
    (Z.of_nat (length (window (fst (calls self key times)) key))
     <= Z.max 0 (max_requests self))%Z.
Proof.
  induction times as [|t times IH]; intros self Hk; [done|].
  rewrite calls_cons. cbn [fst].
  rewrite <- (check_max_requests self key t). apply IH.
  rewrite check_max_requests. by apply check_capacity.
Qed.

(** X4.  The sliding window, for a positive period and a clock that does
    not run backwards: after any sequence of calls for a key that had
    nothing on record, the window of the key is exactly the accepted calls
    made less than [period_seconds] before the last call, in order; so at
    most [max_requests] calls were accepted within the period that ends at
    the last call. *)
Theorem accepted_within_period_bounded
    (N P : Z) (reqs : gmap string (list Q)) (key : string) (times : list Q) (t : Q) :
  (0 < P)%Z ->
  window (mkRateLimiter N P reqs) key = [] ->
  nondecreasing (times ++ [t]) = true ->
  let after := calls (mkRateLimiter N P reqs) key (times ++ [t]) in
  let recent := unexpired P t (accepted (times ++ [t]) (snd after)) in
  window (fst after) key = recent /\
  (Z.of_nat (length recent) <= Z.max 0 N)%Z.
Proof.
  intros HP Hempty Hmono after recent.
  set (self := mkRateLimiter N P reqs) in *.
  assert (window (fst after) key = recent) as Hw.
  { subst after recent.
    destruct (times ++ [t]) as [|t0 rest] eqn:El; [by destruct times|].
    rewrite (calls_window_accepted key (t0 :: rest) self t0 [] HP Hempty
               (nondecreasing_dup t0 rest Hmono)).
    cbn [app period_seconds self]. f_equal.
    rewrite <- El. apply List.last_last. }
  split; [exact Hw|]. rewrite <- Hw.
  apply (calls_capacity key (times ++ [t]) self).
  rewrite Hempty. cbn. lia.
Qed.

Lemma accepted_within_period_witness :
  window (fst (calls (mkRateLimiter 2 10 ∅) "u" [1; 5; 6; 12]%Q)) "u" = [5; 12]%Q /\
  (Z.of_nat (length (unexpired 10 12
      (accepted [1; 5; 6; 12]%Q
         (snd (calls (mkRateLimiter 2 10 ∅) "u" [1; 5; 6; 12]%Q))))) <= Z.max 0 2)%Z.
Proof.
  assert (0 < 10)%Z as HP by lia.
  assert (window (mkRateLimiter 2 10 ∅) "u" = []) as Hfresh by (vm_compute; reflexivity).
  destruct (accepted_within_period_bounded 2 10 ∅ "u" [1; 5; 6]%Q 12%Q HP Hfresh eq_refl)
    as [Hw Hlen].
  split; [|exact Hlen].
  cbn [app] in Hw. rewrite Hw. vm_compute. reflexivity.
Defined.

Lemma filter_drops {A} (p : A -> bool) (l : list A) (x : A) :
  In x l -> p x = false -> (length (List.filter p l) < length l)%nat.
Proof.
  induction l as [|a l IH]; [done|]. intros [->|Hin] Hx; cbn [List.filter length].
  - rewrite Hx. pose proof (List.filter_length_le p l). lia.
  - specialize (IH Hin Hx). destruct (p a); cbn [length]; lia.
Qed.

(** X5.  Waiting out the oldest request is enough: when a call is rejected
    and the key has no more than [max_requests] timestamps on record (as is
    always the case from a new limiter), a call made at least
    [period_seconds - (now - oldest)] seconds later, the wait the message
    is computed from, is let through. *)
Theorem waiting_the_remaining_time_is_enough
    (self : RateLimiter) (key : string) (now later oldest : Q) :
  (Z.of_nat (length (window self key)) <= max_requests self)%Z ->
  rejected (snd (check_and_consume self key now)) = true ->
  py_min (unexpired (period_seconds self) now (window self key)) = Return oldest ->
  (inject_Z (period_seconds self) - (now - oldest) <= later - now)%Q ->
  snd (check_and_consume (fst (check_and_consume self key now)) key later)
  = Return (true, None).
Proof.
  intros Hcap Hrej Hmin Hwait.
  set (kept := unexpired (period_seconds self) now (window self key)) in *.
  assert (window (fst (check_and_consume self key now)) key = kept) as Hw.
  { rewrite check_window. rewrite check_outcome in Hrej. cbv zeta in *.
    fold kept in Hrej |- *. by destruct (Z.leb _ _). }
  rewrite check_outcome. cbv zeta.
  rewrite check_max_requests, check_period_seconds, Hw.
  destruct (py_min_least kept oldest Hmin) as [Hin _].
  assert (length (unexpired (period_seconds self) later kept) < length kept)%nat as Hlt.
  { apply (filter_drops _ kept oldest Hin). apply Qltb_ge. lra. }
  pose proof (unexpired_length (period_seconds self) now (window self key)) as Hlen.
  fold kept in Hlen.
  destruct (Z.leb_spec (max_requests self)
              (Z.of_nat (length (unexpired (period_seconds self) later kept))));
    [lia | done].
Qed.

Lemma waiting_witness :
  snd (check_and_consume
         (fst (check_and_consume (mkRateLimiter 1 10 {[ "u" := [1%Q] ]}) "u" (9 # 2)%Q))
         "u" 11%Q)
  = Return (true, None).
Proof.
  assert (Z.of_nat (length (window (mkRateLimiter 1 10 {[ "u" := [1%Q] ]}) "u")) <= 1)%Z
    as Hcap by (vm_compute; discriminate).
  assert (rejected (snd (check_and_consume (mkRateLimiter 1 10 {[ "u" := [1%Q] ]})
                           "u" (9 # 2)%Q)) = true) as Hrej by (vm_compute; reflexivity).
  assert (py_min (unexpired 10 (9 # 2)%Q
                    (window (mkRateLimiter 1 10 {[ "u" := [1%Q] ]}) "u")) = Return 1%Q)
    as Hmin by (vm_compute; reflexivity).
  apply (waiting_the_remaining_time_is_enough
           (mkRateLimiter 1 10 {[ "u" := [1%Q] ]}) "u" (9 # 2)%Q 11%Q 1%Q Hcap Hrej Hmin).
  vm_compute. discriminate.
Defined.

(** X6.  Retrying too soon is rejected again: after a rejected call, a
    call made later but less than [period_seconds - (now - oldest)] seconds
    later is rejected as well.  The message shows that wait rounded down,
    so a retry after exactly the seconds shown is rejected whenever the
    wait is not a whole number. *)
Theorem retry_before_the_remaining_time_is_rejected
    (self : RateLimiter) (key : string) (now later oldest : Q) :
  rejected (snd (check_and_consume self key now)) = true ->
  py_min (unexpired (period_seconds self) now (window self key)) = Return oldest ->
  (now <= later)%Q ->
  (later - now < inject_Z (period_seconds self) - (now - oldest))%Q ->
  rejected (snd (check_and_consume (fst (check_and_consume self key now)) key later))
  = true /\
  (inject_Z (int_of_float (inject_Z (period_seconds self) - (now - oldest)))
   <= inject_Z (period_seconds self) - (now - oldest))%Q.
Proof.
  intros Hrej Hmin Hlater Hsoon.
  set (kept := unexpired (period_seconds self) now (window self key)) in *.
  destruct (py_min_least kept oldest Hmin) as [Hin Hleast].
  assert (0 < inject_Z (period_seconds self) - (now - oldest))%Q as Hpos.
  { apply unexpired_spec in Hin as [_ Hin]. lra. }
  split.
  - assert (window (fst (check_and_consume self key now)) key = kept
            /\ (max_requests self <= Z.of_nat (length kept))%Z) as [Hw Hfull].
    { rewrite check_window. rewrite check_outcome in Hrej. cbv zeta in *.
      fold kept in Hrej |- *.
      destruct (Z.leb_spec (max_requests self) (Z.of_nat (length kept))); done. }
    rewrite check_outcome. cbv zeta.
    rewrite check_max_requests, check_period_seconds, Hw.
    rewrite (unexpired_all (period_seconds self) later kept).
    + destruct (Z.leb_spec (max_requests self) (Z.of_nat (length kept))); [|lia].
      by rewrite Hmin.
    + intros x Hx. specialize (Hleast x Hx). lra.
  - rewrite rate_limiter_spec.int_of_float_floor by by apply Qlt_le_weak.
    apply Qfloor_le.
Qed.

Lemma retry_witness :
  rejected (snd (check_and_consume
                   (fst (check_and_consume (mkRateLimiter 1 10 {[ "u" := [1%Q] ]})
                           "u" (9 # 2)%Q))
                   "u" (21 # 2)%Q))
  = true.
Proof.
  assert (rejected (snd (check_and_consume (mkRateLimiter 1 10 {[ "u" := [1%Q] ]})
                           "u" (9 # 2)%Q)) = true) as Hrej by (vm_compute; reflexivity).
  assert (py_min (unexpired 10 (9 # 2)%Q
                    (window (mkRateLimiter 1 10 {[ "u" := [1%Q] ]}) "u")) = Return 1%Q)
    as Hmin by (vm_compute; reflexivity).
  assert ((9 # 2) <= (21 # 2))%Q as Hlater by (vm_compute; discriminate).
  assert ((21 # 2) - (9 # 2) < inject_Z 10 - ((9 # 2) - 1))%Q as Hsoon
    by (vm_compute; reflexivity).
  exact (proj1 (retry_before_the_remaining_time_is_rejected
                  (mkRateLimiter 1 10 {[ "u" := [1%Q] ]}) "u" (9 # 2)%Q (21 # 2)%Q 1%Q
                  Hrej Hmin Hlater Hsoon)).
Defined.

End rate_limiter_traces_spec.

(** ** The configuration loader, further *)

Module config_groups_spec.
Import config config_facts config_groups.

Lemma dict_pop_lookup (d : list (string * PyVal)) (key k : string) :
  dict_lookup (dict_pop d key) k
  = if (k =? key)%string then None else dict_lookup d k.
Proof.
  unfold dict_pop. induction d as [|[k' v] d IH]; cbn [List.filter dict_lookup fst].
  - by destruct (k =? key)%string.
  - destruct (k' =? key)%string eqn:E1; cbn [negb dict_lookup].
    + rewrite IH. destruct (k =? key)%string eqn:E2; [done|].
      apply String.eqb_eq in E1 as ->. rewrite String.eqb_sym, E2. done.
    + rewrite IH. destruct (k' =? k)%string eqn:E3; [|done].
      apply String.eqb_eq in E3 as ->. by rewrite E1.
Qed.

Lemma find_doubao_skips (before rest : list PyVal) :
  forallb (fun v => negb (is_doubao v)) before = true ->
  find_doubao (before ++ rest) = find_doubao rest.
Proof.
  induction before as [|v before IH]; [done|]. cbn [forallb app find_doubao].
  intros [Hv Hb]%andb_true_iff. apply negb_true_iff in Hv.
  destruct v; try by apply IH. cbn [is_doubao] in Hv. rewrite Hv. by apply IH.
Qed.

(** X7.  Only the first matching provider override is used: entries before
    it that are no mapping or carry another [__template_key] are skipped,
    entries after it are ignored even when they match; the settings taken
    from it are its fields, less [__template_key].  With no matching entry
    there are no settings. *)
Theorem first_matching_override_wins
    (before after : list PyVal) (override : list (string * PyVal)) :
  forallb (fun v => negb (is_doubao v)) before = true ->
  is_doubao (PDict override) = true ->
  let settings := doubao_settings_of (PList (before ++ PDict override :: after)) in
  settings = dict_pop override "__template_key" /\
  dict_lookup settings "__template_key" = None /\
  (forall k, (k =? "__template_key")%string = false ->
             dict_lookup settings k = dict_lookup override k) /\
  doubao_settings_of (PList before) = [].
Proof.
  intros Hbefore Hmatch settings. subst settings. cbn [doubao_settings_of].
  rewrite (find_doubao_skips before _ Hbefore). cbn [find_doubao].
  cbn [is_doubao] in Hmatch. rewrite Hmatch.
  split; [done|]. split; [|split].
  - by rewrite dict_pop_lookup.
  - intros k Hk. by rewrite dict_pop_lookup, Hk.
  - rewrite <- (app_nil_r before). by rewrite (find_doubao_skips before [] Hbefore).
Qed.

Lemma first_match_witness :
  doubao_settings_of
    (PList [PStr "x"; PDict [("__template_key", PStr "openai"); ("api_key", PStr "a")];
            PDict [("__template_key", PStr "doubao"); ("api_key", PStr "b")];
            PDict [("__template_key", PStr "doubao"); ("api_key", PStr "c")]])
  = [("api_key", PStr "b")].
Proof.
  exact (proj1 (first_matching_override_wins
                  [PStr "x"; PDict [("__template_key", PStr "openai"); ("api_key", PStr "a")]]
                  [PDict [("__template_key", PStr "doubao"); ("api_key", PStr "c")]]
                  [("__template_key", PStr "doubao"); ("api_key", PStr "b")]
                  eq_refl eq_refl)).
Defined.

Lemma load_with_override (fields : list (string * PyVal)) :
  exists cfg,
    _load_config (with_doubao_override fields) = Return cfg /\
    api_keys cfg = load_api_keys (dict_pop fields "__template_key").
Proof. eexists. split; reflexivity. Qed.

(** X8.  An [api_keys] field that is not a list hides the legacy key: when
    the matched override has [api_keys] set to anything but a list (null, a
    string, a number), the loader ends with no keys, whether or not
    [api_key] is set. *)
Theorem non_list_api_keys_hides_legacy_key (fields : list (string * PyVal)) (v : PyVal) :
  dict_lookup fields "api_keys" = Some v ->
  is_list v = false ->
  exists cfg,
    _load_config (with_doubao_override fields) = Return cfg /\ api_keys cfg = [].
Proof.
  intros Hv Hlist. destruct (load_with_override fields) as (cfg & Hload & Hkeys).
  exists cfg. split; [exact Hload|]. rewrite Hkeys.
  unfold load_api_keys, dict_has, dict_get. rewrite !dict_pop_lookup. cbn [String.eqb].
  change ("api_keys" =? "__template_key")%string with false. cbv iota.
  rewrite Hv. destruct v; try done; by destruct (truthy _).
Qed.

Lemma non_list_api_keys_witness :
  exists cfg,
    _load_config (with_doubao_override [("api_keys", PStr "k1"); ("api_key", PStr "k2")])
      = Return cfg /\ api_keys cfg = [].
Proof.
  exact (non_list_api_keys_hides_legacy_key
           [("api_keys", PStr "k1"); ("api_key", PStr "k2")] (PStr "k1")
           eq_refl eq_refl).
Defined.

Lemma clean_keys_fixed (keys : list string) :
  Forall (fun k => clean_key k /\ strip k = k) keys ->
  clean_keys (List.map PStr keys) = keys.
Proof.
  induction 1 as [|k keys [[Hne _] Hk] _ IH]; [done|].
  cbn [List.map clean_keys]. rewrite Hk, IH.
  destruct (k =? "")%string eqn:E; [|done].
  by apply String.eqb_eq in E.
Qed.

(** X9.  The normalization of the keys is idempotent: the keys a loaded
    configuration ends with, configured again as [api_keys], are loaded
    back unchanged. *)
Theorem loaded_keys_load_unchanged (config : list (string * PyVal)) (cfg : ConfigLoader) :
  _load_config config = Return cfg ->
  exists cfg',
    _load_config (with_doubao_override [("api_keys", PList (List.map PStr (api_keys cfg)))])
      = Return cfg' /\
    api_keys cfg' = api_keys cfg.
Proof.
  intros Hload.
  destruct (load_with_override [("api_keys", PList (List.map PStr (api_keys cfg)))])
    as (cfg' & Hload' & Hkeys).
  exists cfg'. split; [exact Hload'|]. rewrite Hkeys.
  change (load_api_keys _)
    with (let got := PList (List.map PStr (api_keys cfg)) in
          match (if truthy got then got else PList []) with
          | PList l => clean_keys l
          | _ => []
          end).
  cbv zeta.
  assert (Forall (fun k => clean_key k /\ strip k = k) (api_keys cfg)) as H.
  { destruct (load_config_api_keys config cfg Hload) as (po & _ & ->).
    eapply Forall_impl; [apply load_api_keys_clean|].
    intros k Hk. split; [exact Hk | by apply strip_fixed]. }
  destruct (api_keys cfg) as [|k keys] eqn:E; [done|].
  cbn [truthy List.map].
  change (PStr k :: List.map PStr keys) with (List.map PStr (k :: keys)).
  by apply clean_keys_fixed.
Qed.

Lemma loaded_keys_witness :
  exists cfg',
    _load_config (with_doubao_override [("api_keys", PList [PStr "a"; PStr "b"])])
      = Return cfg' /\
    api_keys cfg' = ["a"; "b"].
Proof.
  destruct (load_with_override [("api_keys", PList [PStr " a "; PStr ""; PStr "b"])])
    as (cfg & Hload & Hkeys).
  assert (api_keys cfg = ["a"; "b"]) as E by (rewrite Hkeys; reflexivity).
  destruct (loaded_keys_load_unchanged _ cfg Hload) as (cfg' & Hload' & Hkeys').
  rewrite E in Hload', Hkeys'. exists cfg'. split; [exact Hload' | exact Hkeys'].
Defined.

(** X10.  The five groups of settings are independent: each getter
    returns what its own section of the configuration determines, so two
    configurations that load and agree on a section have the same group
    for it, whatever else they hold. *)
Theorem settings_groups_depend_on_their_section
    (config1 config2 : list (string * PyVal)) (cfg1 cfg2 : ConfigLoader) :
  _load_config config1 = Return cfg1 ->
  _load_config config2 = Return cfg2 ->
  (dict_lookup config1 "api_settings" = dict_lookup config2 "api_settings" ->
   get_api_settings cfg1 = get_api_settings cfg2) /\
  (dict_lookup config1 "image_generation_settings"
   = dict_lookup config2 "image_generation_settings" ->
   get_image_generation_settings cfg1 = get_image_generation_settings cfg2) /\
  (dict_lookup config1 "persona_settings" = dict_lookup config2 "persona_settings" ->
   get_persona_settings cfg1 = get_persona_settings cfg2) /\
  (dict_lookup config1 "retry_settings" = dict_lookup config2 "retry_settings" ->
   get_retry_settings cfg1 = get_retry_settings cfg2) /\
  (dict_lookup config1 "rate_limit_settings" = dict_lookup config2 "rate_limit_settings" ->
   get_rate_limit_settings cfg1 = get_rate_limit_settings cfg2).
Proof.
  unfold _load_config.
  repeat (match goal with
          | |- context [bind (py_get ?v ?k ?d) _] =>
              let E := fresh "E" in
              destruct (py_get v k d) as [?|?] eqn:E; cbn [bind]; [|discriminate]
          end).
  intros [= <-] [= <-].
  unfold get_api_settings, get_image_generation_settings, get_persona_settings,
    get_retry_settings, get_rate_limit_settings.
  cbn [provider_id api_type model api_keys endpoint_id api_base default_size watermark
       optimize_prompt_mode resolution aspect_ratio persona_reference_image
       enable_auto_outfit max_attempts_per_key enable_smart_retry total_timeout
       rate_limit_enabled rate_limit_max_requests rate_limit_period].
  unfold dict_get in *.
  repeat match goal with |- _ /\ _ => split end;
    intros Hsame; rewrite Hsame in *;
    repeat match goal with
           | H1 : ?x = Return ?a, H2 : ?x = Return ?b |- _ =>
               rewrite H1 in H2; injection H2 as <-
           end;
    reflexivity.
Qed.

Lemma settings_groups_witness :
  exists cfg1 cfg2,
    _load_config [("rate_limit_settings", PDict [("max_requests", PInt 2)])] = Return cfg1 /\
    _load_config [("persona_settings", PDict []);
                  ("rate_limit_settings", PDict [("max_requests", PInt 2)])] = Return cfg2 /\
    get_rate_limit_settings cfg1 = get_rate_limit_settings cfg2.
Proof.
  eexists _, _. split; [reflexivity|]. split; [reflexivity|].
  refine (proj2 (proj2 (proj2 (proj2
            (settings_groups_depend_on_their_section
               [("rate_limit_settings", PDict [("max_requests", PInt 2)])]
               [("persona_settings", PDict []);
                ("rate_limit_settings", PDict [("max_requests", PInt 2)])]
               _ _ eq_refl eq_refl)))) eq_refl).
Defined.

End config_groups_spec.

(** ** The API client, further *)

Module api_client_effects_spec.
Import api_client api_client_facts api_client_effects.

Lemma only_writes_refl (s : Sys) : only_writes s s.
Proof. split; [done|]. exists []. by rewrite app_nil_r. Qed.

Lemma only_writes_trans (s1 s2 s3 : Sys) :
  only_writes s1 s2 -> only_writes s2 s3 -> only_writes s1 s3.
Proof.
  intros (H1 & ws1 & E1 & W1) (H2 & ws2 & E2 & W2). split; [congruence|].
  exists (ws1 ++ ws2). rewrite E2, E1, <- app_assoc. split; [done|].
  by rewrite forallb_app, W1, W2.
Qed.

Lemma only_writes_filter (p : Event -> bool) (s s' : Sys) :
  (forall e, is_file_written e = true -> p e = false) ->
  only_writes s s' -> List.filter p (events s') = List.filter p (events s).
Proof.
  intros Hp (_ & ws & -> & Hws). rewrite List.filter_app.
  assert (List.filter p ws = []) as ->; [|by rewrite app_nil_r].
  induction ws as [|e ws IH]; [done|]. cbn [forallb List.filter] in *.
  apply andb_true_iff in Hws as [He Hws]. rewrite (Hp e He). by apply IH.
Qed.

(** [_save_base64_image] always returns: the empty string and no effect but
    a reading of the clock, or the name of the file it wrote. *)
Lemma save_base64_image_returns (env : Env) (b64_data : PyVal) (s : Sys) :
  exists path s',
    _save_base64_image env b64_data s = (Return path, s') /\
    self s' = self s /\
    (path = "" /\ events s' = events s \/
     exists data,
       path = "selfie_" +:+ str_of_int (int_of_float (time_time env (clock_reads s) * 1000))
              +:+ ".png" /\
       write_bytes env path data = Return tt /\
       events s' = events s ++ [FileWritten path data]).
Proof.
  unfold _save_base64_image, try_except, mbind, lift, read_clock, emit, ret.
  destruct b64_data; try by (eexists _, _; split; [reflexivity|]; split; [done|]; left).
  destruct (b64decode env _) as [data|e];
    [|by (eexists _, _; split; [reflexivity|]; split; [done|]; left)].
  cbn [self events clock_reads].
  destruct (write_bytes env _ data) as [[]|e] eqn:Ew;
    eexists _, _; (split; [reflexivity|]); (split; [done|]).
  - right. exists data. cbn [events]. done.
  - by left.
Qed.

Lemma save_base64_image_only_writes (env : Env) (b64_data : PyVal) (s : Sys) :
  only_writes s (snd (_save_base64_image env b64_data s)).
Proof.
  destruct (save_base64_image_returns env b64_data s)
    as (path & s' & -> & Hself & [[_ Hev] | (data & _ & _ & Hev)]); cbn [snd].
  - split; [done|]. exists []. by rewrite app_nil_r.
  - split; [done|]. by exists [FileWritten path data].
Qed.

Lemma collect_only_writes (env : Env) (items : list PyVal) :
  forall image_urls s,
    only_writes s (snd (collect_image_urls env items image_urls s)).
Proof.
  induction items as [|item items IH]; intros image_urls s; [apply only_writes_refl|].
  cbn [collect_image_urls]. unfold mbind at 1. unfold lift at 1.
  destruct (py_in "url" item) as [[]|e]; [| |apply only_writes_refl].
  - unfold mbind, lift. destruct (py_getitem item "url"); [apply IH | apply only_writes_refl].
  - unfold mbind at 1. unfold lift at 1.
    destruct (py_in "b64_json" item) as [[]|e]; [| apply IH | apply only_writes_refl].
    unfold mbind at 1. unfold lift at 1.
    destruct (py_getitem item "b64_json") as [b|e]; [|apply only_writes_refl].
    unfold mbind.
    pose proof (save_base64_image_only_writes env b s) as Hsave.
    destruct (save_base64_image_returns env b s) as (path & s' & E & _).
    rewrite E in Hsave |- *. cbn [snd] in Hsave.
    destruct (negb _); (eapply only_writes_trans; [exact Hsave | apply IH]).
Qed.

Lemma handle_response_only_writes (env : Env) (response : Response) (s : Sys) :
  only_writes s (snd (handle_response env response s)).
Proof.
  unfold handle_response. destruct (negb _).
  - unfold mbind, lift, ret. destruct (text response); apply only_writes_refl.
  - unfold mbind at 1. unfold lift at 1.
    destruct (json response) as [data|]; [|apply only_writes_refl].
    unfold mbind at 1. unfold lift at 1.
    destruct (py_in "data" data) as [[]|]; cbn [negb]; try apply only_writes_refl.
    unfold mbind at 1. unfold lift at 1.
    destruct (py_getitem data "data") as [items|]; [|apply only_writes_refl].
    destruct (negb (truthy items)); [apply only_writes_refl|].
    unfold mbind at 1. unfold lift at 1.
    destruct (py_iter items) as [l|]; [|apply only_writes_refl].
    unfold mbind.
    pose proof (collect_only_writes env l [] s) as H.
    destruct (collect_image_urls env l [] s) as [[[|first rest]|e] s']; exact H.
Qed.

Lemma map_resolution_nonempty (resolution model : string) :
  (_map_resolution resolution model =? "")%string = false.
Proof.
  rewrite map_resolution_table. unfold resolution_table.
  destruct (re_match_wxh (token resolution)) eqn:E.
  - destruct (token resolution); [discriminate | reflexivity].
  - destruct (_ || _); [reflexivity|]. destruct (_ || _); [reflexivity|].
    destruct (_ || _); reflexivity.
Qed.

Lemma add_reference_image_spec (env : Env) (reference_image : option string)
    (payload : list (string * PyVal)) (s : Sys) :
  reference_readable env reference_image = true ->
  exists s0,
    add_reference_image env reference_image payload s
    = (Return (payload ++ image_entry env reference_image), s0) /\
    self s0 = self s /\
    events s0 = events s ++ read_events env reference_image /\
    clock_reads s0 = clock_reads s.
Proof.
  unfold reference_readable, add_reference_image, image_entry, read_events, reference_used.
  destruct reference_image as [path|];
    [|intros _; exists s; by rewrite !app_nil_r].
  destruct (negb _ && _); [|intros _; exists s; by rewrite !app_nil_r].
  unfold mbind, emit, lift, ret.
  destruct (read_bytes env path) as [bytes|]; [|discriminate]. intros _.
  eexists. split; [reflexivity|]. done.
Qed.

Lemma get_session_spec (s : Sys) :
  exists s1,
    _get_session s = (Return OpenSession, s1) /\
    self s1 = with_open_session (self s) /\
    events s1 = events s ++ session_events (session (self s)) /\
    clock_reads s1 = clock_reads s.
Proof.
  unfold _get_session, mbind, get_self, emit, set_session, ret, with_open_session,
    session_events.
  destruct s as [[keys base endpoint []] evs clock]; cbn;
    eexists; (split; [reflexivity|]); by rewrite ?app_nil_r.
Qed.

Lemma nth_mod_In (l : list string) (i : nat) :
  l <> [] -> In (nth (i mod length l) l "") l.
Proof.
  intros Hl. apply nth_In. apply Nat.mod_upper_bound. by destruct l.
Qed.

(** A call with keys and a readable reference image, step by step: the
    state [s2] in which the answer to the one request is handled, and what
    has been logged by then. *)
Lemma generate_image_trace (env : Env) (s : Sys) (prompt : string)
    (reference_image : option string) (resolution : string) :
  api_keys (self s) <> [] ->
  reference_readable env reference_image = true ->
  exists api_key s2,
    let request := request_with env (self s) api_key prompt reference_image resolution in
    let handler := fun e => ret (false, PStr ("API请求异常: " +:+ str_exc env e)) in
    In api_key (api_keys (self s)) /\
    self s2 = with_open_session (self s) /\
    events s2 = events s ++ read_events env reference_image
                ++ session_events (session (self s)) ++ [Posted request] /\
    clock_reads s2 = clock_reads s /\
    generate_image env prompt reference_image resolution s
    = try_except (mbind (lift (post env request)) (handle_response env)) handler s2.
Proof.
  intros Hkeys Hread. unfold generate_image.
  unfold mbind at 1. unfold get_self at 1.
  destruct (api_keys (self s)) as [|k ks] eqn:Ek; [done|].
  rewrite map_resolution_nonempty. cbn [negb].
  match goal with
  | |- context [add_reference_image env reference_image ?p] =>
      destruct (add_reference_image_spec env reference_image p s Hread)
        as (s0 & Hadd & Hself0 & Hev0 & Hclock0)
  end.
  destruct (get_session_spec s0) as (s1 & Hget & Hself1 & Hev1 & Hclock1).
  exists (nth (random_index env mod length (k :: ks)) (k :: ks) "").
  exists (mkSys (self s1) (events s1 ++ [Posted (request_with env (self s)
            (nth (random_index env mod length (k :: ks)) (k :: ks) "")
            prompt reference_image resolution)]) (clock_reads s1)).
  cbv zeta. cbn [self events clock_reads].
  split; [apply nth_mod_In; done|].
  split; [by rewrite Hself1, Hself0|].
  split; [by rewrite Hev1, Hev0, Hself0, <- !app_assoc|].
  split; [congruence|].
  unfold mbind at 1. rewrite Hadd.
  unfold mbind at 1. rewrite Hget.
  unfold try_except, mbind at 1, emit. reflexivity.
Qed.

(** After the request has been sent, the call leaves the client as it is
    and logs nothing but file writes. *)
Lemma try_block_only_writes (env : Env) (request : Request) (s2 : Sys) :
  only_writes s2
    (snd (try_except (mbind (lift (post env request)) (handle_response env))
            (fun e => ret (false, PStr ("API请求异常: " +:+ str_exc env e))) s2)).
Proof.
  unfold try_except, mbind, lift.
  destruct (post env request) as [response|e]; [|apply only_writes_refl].
  pose proof (handle_response_only_writes env response s2) as H.
  destruct (handle_response env response s2) as [[r|e] s3]; exact H.
Qed.

Lemma filter_not_posted (env : Env) (reference_image : option string) (x : Session) :
  List.filter is_posted (read_events env reference_image ++ session_events x) = [].
Proof.
  unfold read_events, session_events.
  destruct reference_image as [path|]; [destruct (reference_used _ _)|]; by destruct x.
Qed.

(** X11.  One call, one request: a call with keys configured and a
    readable reference image sends exactly one POST, whatever the answer
    (there is no retry).  The request goes to the base address without its
    trailing slashes followed by [/api/v3/images/generations], carries one
    of the configured keys as bearer token, and its body holds the model,
    the prompt, [response_format = url], [watermark = false], the mapped
    size and, when the reference image is given and on disk, the image as a
    data URI. *)
Theorem one_request_per_call (env : Env) (s : Sys) (prompt : string)
    (reference_image : option string) (resolution : string) :
  api_keys (self s) <> [] ->
  reference_readable env reference_image = true ->
  exists api_key,
    In api_key (api_keys (self s)) /\
    List.filter is_posted
      (events (snd (generate_image env prompt reference_image resolution s)))
    = List.filter is_posted (events s)
      ++ [Posted (request_with env (self s) api_key prompt reference_image resolution)].
Proof.
  intros Hkeys Hread.
  destruct (generate_image_trace env s prompt reference_image resolution Hkeys Hread)
    as (api_key & s2 & Hin & _ & Hev & _ & Hrun).
  cbv zeta in *. exists api_key. split; [exact Hin|]. rewrite Hrun.
  rewrite (only_writes_filter is_posted s2 _ ltac:(by intros []) (try_block_only_writes _ _ _)).
  rewrite Hev, !List.filter_app.
  pose proof (filter_not_posted env reference_image (session (self s))) as Hnone.
  rewrite List.filter_app in Hnone. apply app_eq_nil in Hnone as [-> ->]. done.
Qed.

Lemma one_request_witness :
  List.filter is_posted
    (events (snd (generate_image
                    (example_env (Return (mkResponse 500 (Return "busy") (Raise ValueError))))
                    "a selfie" None " 800X600 "
                    (fresh (__init__ ["key"] "https://host//" "endpoint")))))
  = [Posted (mkRequest "https://host/api/v3/images/generations"
               [("Content-Type", "application/json"); ("Authorization", "Bearer key")]
               [("model", PStr "endpoint"); ("prompt", PStr "a selfie");
                ("response_format", PStr "url"); ("watermark", PBool false);
                ("size", PStr "800x600")])].
Proof.
  assert (api_keys (self (fresh (__init__ ["key"] "https://host//" "endpoint"))) <> [])
    as Hkeys by discriminate.
  destruct (one_request_per_call
              (example_env (Return (mkResponse 500 (Return "busy") (Raise ValueError))))
              (fresh (__init__ ["key"] "https://host//" "endpoint"))
              "a selfie" None " 800X600 " Hkeys eq_refl) as (api_key & Hin & Hposted).
  destruct Hin as [<-|[]]. exact Hposted.
Defined.

Lemma filter_created (env : Env) (reference_image : option string) (x : Session)
    (request : Request) :
  List.filter is_session_created
    (read_events env reference_image ++ session_events x ++ [Posted request])
  = session_events x.
Proof.
  unfold read_events, session_events.
  destruct reference_image as [path|]; [destruct (reference_used _ _)|]; by destruct x.
Qed.

Lemma generate_image_session (env : Env) (s : Sys) (prompt : string)
    (reference_image : option string) (resolution : string) :
  api_keys (self s) <> [] ->
  reference_readable env reference_image = true ->
  self (snd (generate_image env prompt reference_image resolution s))
  = with_open_session (self s) /\
  List.filter is_session_created
    (events (snd (generate_image env prompt reference_image resolution s)))
  = List.filter is_session_created (events s) ++ session_events (session (self s)).
Proof.
  intros Hkeys Hread.
  destruct (generate_image_trace env s prompt reference_image resolution Hkeys Hread)
    as (api_key & s2 & _ & Hself & Hev & _ & Hrun).
  cbv zeta in *. rewrite Hrun.
  pose proof (try_block_only_writes env
                (request_with env (self s) api_key prompt reference_image resolution) s2)
    as Hw.
  split.
  - destruct Hw as [-> _]. exact Hself.
  - rewrite (only_writes_filter is_session_created s2 _ ltac:(by intros []) Hw).
    by rewrite Hev, List.filter_app, filter_created.
Qed.

Lemma close_spec (s : Sys) :
  snd (close s)
  = match session (self s) with
    | OpenSession =>
        mkSys (mkApiClient (api_keys (self s)) (api_base (self s)) (endpoint_id (self s))
                 ClosedSession) (events s) (clock_reads s)
    | _ => s
    end.
Proof.
  unfold close, mbind, get_self, set_session, ret.
  by destruct (session (self s)).
Qed.

(** X12.  The session is created lazily and reused: a call with keys
    leaves the client with an open session, having created one only if the
    client had none open; a second call creates none; [close] closes the
    open session and changes nothing else, closing twice is closing once,
    and the first call after [close] creates a session again. *)
Theorem session_is_created_lazily_and_reused (env env' : Env) (s : Sys)
    (prompt prompt' : string) (reference_image reference_image' : option string)
    (resolution resolution' : string) :
  api_keys (self s) <> [] ->
  reference_readable env reference_image = true ->
  reference_readable env' reference_image' = true ->
  let s1 := snd (generate_image env prompt reference_image resolution s) in
  let s2 := snd (generate_image env' prompt' reference_image' resolution' s1) in
  let closed := snd (close s1) in
  let s3 := snd (generate_image env' prompt' reference_image' resolution' closed) in
  session (self s1) = OpenSession /\
  List.filter is_session_created (events s1)
  = List.filter is_session_created (events s) ++ session_events (session (self s)) /\
  List.filter is_session_created (events s2) = List.filter is_session_created (events s1) /\
  session (self closed) = ClosedSession /\
  api_keys (self closed) = api_keys (self s) /\
  events closed = events s1 /\
  snd (close closed) = closed /\
  List.filter is_session_created (events s3)
  = List.filter is_session_created (events s1) ++ [SessionCreated].
Proof.
  intros Hkeys Hread Hread' s1 s2 closed s3.
  destruct (generate_image_session env s prompt reference_image resolution Hkeys Hread)
    as [Hself1 Hcreated1].
  fold s1 in Hself1, Hcreated1.
  assert (api_keys (self s1) <> []) as Hkeys1 by by rewrite Hself1.
  destruct (generate_image_session env' s1 prompt' reference_image' resolution'
              Hkeys1 Hread') as [_ Hcreated2].
  fold s2 in Hcreated2.
  assert (closed = mkSys (mkApiClient (api_keys (self s)) (api_base (self s))
                            (endpoint_id (self s)) ClosedSession)
                     (events s1) (clock_reads s1)) as Hclosed.
  { subst closed. rewrite close_spec, Hself1. reflexivity. }
  assert (api_keys (self closed) <> []) as Hkeys3 by by rewrite Hclosed.
  destruct (generate_image_session env' closed prompt' reference_image' resolution'
              Hkeys3 Hread') as [_ Hcreated3].
  fold s3 in Hcreated3.
  split; [by rewrite Hself1|]. split; [exact Hcreated1|].
  split; [by rewrite Hcreated2, Hself1, app_nil_r|].
  rewrite Hclosed in *. cbn [self events session api_keys] in *.
  repeat split; done.
Qed.

Lemma session_witness :
  List.filter is_session_created
    (events (snd (generate_image (example_env (Raise ValueError)) "again" None "1K"
                    (snd (generate_image (example_env (Raise ValueError)) "a selfie" None "1K"
                            (fresh (__init__ ["key"] "" "endpoint")))))))
  = [SessionCreated].
Proof.
  assert (api_keys (self (fresh (__init__ ["key"] "" "endpoint"))) <> [])
    as Hkeys by discriminate.
  destruct (session_is_created_lazily_and_reused
              (example_env (Raise ValueError)) (example_env (Raise ValueError))
              (fresh (__init__ ["key"] "" "endpoint"))
              "a selfie" "again" None None "1K" "1K" Hkeys eq_refl eq_refl)
    as (_ & H1 & H2 & _).
  rewrite H2, H1. reflexivity.
Defined.

(** *** Handling a 200 answer *)

Lemma generate_image_answer (env : Env) (s : Sys) (prompt : string)
    (reference_image : option string) (resolution : string) (response : Response) :
  api_keys (self s) <> [] ->
  reference_readable env reference_image = true ->
  (forall request, post env request = Return response) ->
  exists s2,
    clock_reads s2 = clock_reads s /\
    generate_image env prompt reference_image resolution s
    = try_except (handle_response env response)
        (fun e => ret (false, PStr ("API请求异常: " +:+ str_exc env e))) s2.
Proof.
  intros Hkeys Hread Hpost.
  destruct (generate_image_trace env s prompt reference_image resolution Hkeys Hread)
    as (api_key & s2 & _ & _ & _ & Hclock & Hrun).
  cbv zeta in *. exists s2. split; [exact Hclock|]. rewrite Hrun.
  unfold try_except, mbind, lift. by rewrite Hpost.
Qed.

(** The answer is 200 and its JSON is [data]: what is left of
    [handle_response]. *)
Lemma handle_response_200 (env : Env) (response : Response) (data : PyVal) (s : Sys) :
  status response = 200%Z ->
  json response = Return data ->
  handle_response env response s
  = mbind (lift (py_in "data" data))
      (fun has_data : bool =>
         if negb has_data then ret (false, PStr "API返回格式错误") else
         mbind (lift (py_getitem data "data"))
           (fun items =>
              if negb (truthy items) then ret (false, PStr "API返回格式错误") else
              mbind (lift (py_iter items))
                (fun items =>
                   mbind (collect_image_urls env items [])
                     (fun image_urls =>
                        match image_urls with
                        | [] => ret (false, PStr "未生成图像")
                        | first :: _ => ret (true, first)
                        end)))) s.
Proof.
  intros Hstatus Hjson. unfold handle_response. rewrite Hstatus. cbn [Z.eqb negb].
  change (Pos.eqb 200 200) with true. cbv iota.
  unfold mbind at 1. unfold lift at 1. by rewrite Hjson.
Qed.

Lemma collect_dicts (env : Env) (items : list PyVal) :
  forallb is_dict items = true ->
  forall image_urls s,
    exists more s',
      collect_image_urls env items image_urls s = (Return (image_urls ++ more), s').
Proof.
  induction items as [|item items IH]; intros Hdicts image_urls s.
  - exists [], s. by rewrite app_nil_r.
  - cbn [forallb] in Hdicts. apply andb_true_iff in Hdicts as [Hitem Hdicts].
    destruct item as [| | | | | |d]; try discriminate.
    cbn [collect_image_urls]. unfold mbind at 1. unfold lift at 1. cbn [py_in].
    destruct (dict_has d "url") eqn:Eurl.
    + unfold mbind at 1. unfold lift at 1. cbn [py_getitem].
      unfold dict_has in Eurl. destruct (dict_lookup d "url") as [u|]; [|discriminate].
      destruct (IH Hdicts (image_urls ++ [u]) s) as (more & s' & ->).
      exists (u :: more), s'. by rewrite <- app_assoc.
    + unfold mbind at 1. unfold lift at 1. cbn [py_in].
      destruct (dict_has d "b64_json") eqn:Eb64; [|by apply IH].
      unfold mbind at 1. unfold lift at 1. cbn [py_getitem].
      unfold dict_has in Eb64. destruct (dict_lookup d "b64_json") as [b|]; [|discriminate].
      unfold mbind at 1.
      destruct (save_base64_image_returns env b s) as (path & s1 & -> & _).
      destruct (negb _).
      * destruct (IH Hdicts (image_urls ++ [PStr path]) s1) as (more & s' & ->).
        exists (PStr path :: more), s'. by rewrite <- app_assoc.
      * by apply IH.
Qed.

Lemma collect_scalar_raises (env : Env) (before after : list PyVal) (bad : PyVal) :
  forallb is_dict before = true ->
  is_scalar bad = true ->
  forall image_urls s,
    exists s', collect_image_urls env (before ++ bad :: after) image_urls s
               = (Raise TypeError, s').
Proof.
  intros Hdicts Hbad. induction before as [|item before IH]; intros image_urls s.
  - cbn [app collect_image_urls]. unfold mbind, lift.
    destruct bad; try discriminate; by eexists.
  - cbn [forallb] in Hdicts. apply andb_true_iff in Hdicts as [Hitem Hdicts].
    destruct item as [| | | | | |d]; try discriminate.
    cbn [app collect_image_urls]. unfold mbind at 1. unfold lift at 1. cbn [py_in].
    destruct (dict_has d "url") eqn:Eurl.
    + unfold mbind at 1. unfold lift at 1. cbn [py_getitem].
      unfold dict_has in Eurl. destruct (dict_lookup d "url") as [u|]; [|discriminate].
      by apply IH.
    + unfold mbind at 1. unfold lift at 1. cbn [py_in].
      destruct (dict_has d "b64_json") eqn:Eb64; [|by apply IH].
      unfold mbind at 1. unfold lift at 1. cbn [py_getitem].
      unfold dict_has in Eb64. destruct (dict_lookup d "b64_json") as [b|]; [|discriminate].
      unfold mbind at 1.
      destruct (save_base64_image_returns env b s) as (path & s1 & -> & _).
      destruct (negb _); by apply IH.
Qed.

Lemma collect_no_locator (env : Env) (items : list PyVal) :
  forallb no_locator items = true ->
  forall image_urls s,
    collect_image_urls env items image_urls s = (Return image_urls, s).
Proof.
  induction items as [|item items IH]; intros Hnone image_urls s; [done|].
  cbn [forallb] in Hnone. apply andb_true_iff in Hnone as [Hitem Hnone].
  destruct item as [| | | | | |d]; try discriminate.
  cbn [no_locator] in Hitem. apply andb_true_iff in Hitem as [Hu Hb].
  apply negb_true_iff in Hu, Hb.
  cbn [collect_image_urls]. unfold mbind at 1. unfold lift at 1. cbn [py_in].
  rewrite Hu. unfold mbind at 1. unfold lift at 1. cbn [py_in]. rewrite Hb.
  by apply IH.
Qed.

(** X13.  A 200 answer whose [data] is a list of objects, the first of
    which has a [url], is a success, and the result is what stands under
    that [url], whatever it is and whatever the other objects hold. *)
Theorem first_url_is_the_result (env : Env) (s : Sys) (prompt : string)
    (reference_image : option string) (resolution : string) (response : Response)
    (body item : list (string * PyVal)) (rest : list PyVal) (u : PyVal) :
  api_keys (self s) <> [] ->
  reference_readable env reference_image = true ->
  (forall request, post env request = Return response) ->
  status response = 200%Z ->
  json response = Return (PDict body) ->
  dict_lookup body "data" = Some (PList (PDict item :: rest)) ->
  dict_lookup item "url" = Some u ->
  forallb is_dict rest = true ->
  fst (generate_image env prompt reference_image resolution s) = Return (true, u).
Proof.
  intros Hkeys Hread Hpost Hstatus Hjson Hdata Hurl Hrest.
  destruct (generate_image_answer env s prompt reference_image resolution response
              Hkeys Hread Hpost) as (s2 & _ & ->).
  unfold try_except. rewrite (handle_response_200 env response _ s2 Hstatus Hjson).
  unfold mbind at 1. unfold lift at 1. cbn [py_in]. unfold dict_has. rewrite Hdata.
  cbn [negb]. unfold mbind at 1. unfold lift at 1. cbn [py_getitem]. rewrite Hdata.
  cbn [truthy negb]. unfold mbind at 1. unfold lift at 1. cbn [py_iter].
  unfold mbind at 1. cbn [collect_image_urls].
  unfold mbind at 1. unfold lift at 1. cbn [py_in]. unfold dict_has. rewrite Hurl.
  unfold mbind at 1. unfold lift at 1. cbn [py_getitem]. rewrite Hurl.
  destruct (collect_dicts env rest Hrest ([] ++ [u]) s2) as (more & s' & ->).
  reflexivity.
Qed.

Lemma first_url_witness :
  fst (generate_image
         (example_env (Return (mkResponse 200 (Return "")
            (Return (PDict [("data", PList [PDict [("url", PStr "http://x/y.png")]])])))))
         "a selfie" None "1K" (fresh (__init__ ["key"] "" "endpoint")))
  = Return (true, PStr "http://x/y.png").
Proof.
  assert (api_keys (self (fresh (__init__ ["key"] "" "endpoint"))) <> [])
    as Hkeys by discriminate.
  exact (first_url_is_the_result
           (example_env (Return (mkResponse 200 (Return "")
              (Return (PDict [("data", PList [PDict [("url", PStr "http://x/y.png")]])])))))
           (fresh (__init__ ["key"] "" "endpoint")) "a selfie" None "1K"
           (mkResponse 200 (Return "")
              (Return (PDict [("data", PList [PDict [("url", PStr "http://x/y.png")]])])))
           [("data", PList [PDict [("url", PStr "http://x/y.png")]])]
           [("url", PStr "http://x/y.png")] [] (PStr "http://x/y.png")
           Hkeys eq_refl (fun _ => eq_refl) eq_refl eq_refl eq_refl eq_refl eq_refl).
Defined.

(** X14.  One malformed item voids the whole answer: when an item of
    [data] is null, a boolean or a number, and the items before it are
    objects, the call fails with the text of the [TypeError], even when
    earlier items carried a [url]. *)
Theorem scalar_item_fails_the_call (env : Env) (s : Sys) (prompt : string)
    (reference_image : option string) (resolution : string) (response : Response)
    (body : list (string * PyVal)) (before after : list PyVal) (bad : PyVal) :
  api_keys (self s) <> [] ->
  reference_readable env reference_image = true ->
  (forall request, post env request = Return response) ->
  status response = 200%Z ->
  json response = Return (PDict body) ->
  dict_lookup body "data" = Some (PList (before ++ bad :: after)) ->
  forallb is_dict before = true ->
  is_scalar bad = true ->
  fst (generate_image env prompt reference_image resolution s)
  = Return (false, PStr ("API请求异常: " +:+ str_exc env TypeError)).
Proof.
  intros Hkeys Hread Hpost Hstatus Hjson Hdata Hbefore Hbad.
  destruct (generate_image_answer env s prompt reference_image resolution response
              Hkeys Hread Hpost) as (s2 & _ & ->).
  unfold try_except. rewrite (handle_response_200 env response _ s2 Hstatus Hjson).
  unfold mbind at 1. unfold lift at 1. cbn [py_in]. unfold dict_has. rewrite Hdata.
  cbn [negb]. unfold mbind at 1. unfold lift at 1. cbn [py_getitem]. rewrite Hdata.
  assert (truthy (PList (before ++ bad :: after)) = true) as -> by by destruct before.
  cbn [negb]. unfold mbind at 1. unfold lift at 1. cbn [py_iter].
  unfold mbind at 1.
  destruct (collect_scalar_raises env before after bad Hbefore Hbad [] s2) as (s' & ->).
  reflexivity.
Qed.

Lemma scalar_item_witness :
  fst (generate_image
         (example_env (Return (mkResponse 200 (Return "")
            (Return (PDict [("data", PList [PDict [("url", PStr "http://x/y.png")];
                                            PNone])])))))
         "a selfie" None "1K" (fresh (__init__ ["key"] "" "endpoint")))
  = Return (false, PStr "API请求异常: ").
Proof.
  assert (api_keys (self (fresh (__init__ ["key"] "" "endpoint"))) <> [])
    as Hkeys by discriminate.
  exact (scalar_item_fails_the_call
           (example_env (Return (mkResponse 200 (Return "")
              (Return (PDict [("data", PList [PDict [("url", PStr "http://x/y.png")];
                                              PNone])])))))
           (fresh (__init__ ["key"] "" "endpoint")) "a selfie" None "1K"
           (mkResponse 200 (Return "")
              (Return (PDict [("data", PList [PDict [("url", PStr "http://x/y.png")];
                                              PNone])])))
           [("data", PList [PDict [("url", PStr "http://x/y.png")]; PNone])]
           [PDict [("url", PStr "http://x/y.png")]] [] PNone
           Hkeys eq_refl (fun _ => eq_refl) eq_refl eq_refl eq_refl eq_refl eq_refl).
Defined.

(** X15.  A 200 answer without images: when the JSON object has no
    [data], or a [data] that is false, null, zero or empty, the call fails
    with ["API返回格式错误"]; when [data] is a non-empty list of objects
    none of which has a [url] or a [b64_json], it fails with
    ["未生成图像"]. *)
Theorem answers_without_images (env : Env) (s : Sys) (prompt : string)
    (reference_image : option string) (resolution : string) (response : Response)
    (body : list (string * PyVal)) :
  api_keys (self s) <> [] ->
  reference_readable env reference_image = true ->
  (forall request, post env request = Return response) ->
  status response = 200%Z ->
  json response = Return (PDict body) ->
  let result := fst (generate_image env prompt reference_image resolution s) in
  (dict_lookup body "data" = None -> result = Return (false, PStr "API返回格式错误")) /\
  (forall v, dict_lookup body "data" = Some v -> truthy v = false ->
             result = Return (false, PStr "API返回格式错误")) /\
  (forall first rest,
      dict_lookup body "data" = Some (PList (first :: rest)) ->
      forallb no_locator (first :: rest) = true ->
      result = Return (false, PStr "未生成图像")).
Proof.
  intros Hkeys Hread Hpost Hstatus Hjson result. subst result.
  destruct (generate_image_answer env s prompt reference_image resolution response
              Hkeys Hread Hpost) as (s2 & _ & ->).
  unfold try_except. rewrite (handle_response_200 env response _ s2 Hstatus Hjson).
  unfold mbind at 1. unfold lift at 1. cbn [py_in]. unfold dict_has.
  split; [|split].
  - by intros ->.
  - intros v Hd Hv. rewrite Hd. cbn [negb]. unfold mbind, lift.
    cbn [py_getitem]. by rewrite Hd, Hv.
  - intros first rest Hd Hnone. rewrite Hd. cbn [negb]. unfold mbind, lift.
    cbn [py_getitem]. rewrite Hd. cbn [truthy negb py_iter].
    by rewrite (collect_no_locator env _ Hnone).
Qed.

Lemma answers_without_images_witness :
  fst (generate_image
         (example_env (Return (mkResponse 200 (Return "")
            (Return (PDict [("data", PList [PDict [("revised_prompt", PStr "p")]])])))))
         "a selfie" None "1K" (fresh (__init__ ["key"] "" "endpoint")))
  = Return (false, PStr "未生成图像").
Proof.
  assert (api_keys (self (fresh (__init__ ["key"] "" "endpoint"))) <> [])
    as Hkeys by discriminate.
  refine (proj2 (proj2 (answers_without_images
           (example_env (Return (mkResponse 200 (Return "")
              (Return (PDict [("data", PList [PDict [("revised_prompt", PStr "p")]])])))))
           (fresh (__init__ ["key"] "" "endpoint")) "a selfie" None "1K"
           (mkResponse 200 (Return "")
              (Return (PDict [("data", PList [PDict [("revised_prompt", PStr "p")]])])))
           [("data", PList [PDict [("revised_prompt", PStr "p")]])]
           Hkeys eq_refl (fun _ => eq_refl) eq_refl eq_refl)) _ _ eq_refl eq_refl).
Defined.




End api_client_effects_spec.

(** ** main.py *)

Module main_spec.
Import api_client main.

Lemma or_unknown_truthy (o : PyObj) : obj_truthy (or_unknown o) = true.
Proof. unfold or_unknown. by destruct (obj_truthy o) eqn:E. Qed.

Lemma sender_id_truthy (sender : PyObj) : obj_truthy (sender_id sender) = true.
Proof.
  unfold sender_id. repeat destruct (hasattr _ _); auto using or_unknown_truthy.
Qed.

(** X18.  [_get_user_id] never comes back empty-handed: whatever the event
    looks like, the identifier it returns is truthy (never [None], never
    the empty string), ["unknown"] standing in for a missing or empty one.
    An event with a [user_id] attribute is identified by it alone: when
    that attribute is empty the result is ["unknown"] and the sender is not
    looked at. *)
Theorem user_id_is_never_empty (event : PyObj) :
  obj_truthy (_get_user_id event) = true /\
  (hasattr event "user_id" = true ->
   _get_user_id event
   = if obj_truthy (getattr event "user_id") then getattr event "user_id"
     else Val (PStr "unknown")) /\
  (hasattr event "user_id" = false -> hasattr event "sender" = false ->
   hasattr event "message_obj" = false ->
   _get_user_id event = Val (PStr "unknown")).
Proof.
  split; [|split].
  - unfold _get_user_id.
    repeat match goal with
           | |- context [if ?b then _ else _] => destruct b
           end; auto using or_unknown_truthy, sender_id_truthy.
  - intros H. unfold _get_user_id. by rewrite H.
  - intros H1 H2 H3. unfold _get_user_id. by rewrite H1, H2, H3.
Qed.

Lemma first_existing_spec (env : Env) (paths : Paths) (dir : option string)
    (images : list PyVal) :
  match first_existing env paths dir images with
  | Some p =>
      path_exists env p = true /\
      exists before after,
        candidates paths dir images = before ++ p :: after /\
        forallb (fun q => negb (path_exists env q)) before = true
  | None => forallb (fun q => negb (path_exists env q)) (candidates paths dir images) = true
  end.
Proof.
  induction images as [|v images IH]; [done|]. cbn [first_existing candidates].
  destruct v; cbn [truthy]; try exact IH;
    try (match goal with |- context [if ?b then _ else _] => destruct b end; exact IH).
  destruct (s =? "")%string eqn:Es; cbn [negb]; [exact IH|].
  destruct (path_exists env (check_path_of paths dir s)) eqn:Ep.
  - split; [exact Ep|]. by exists [], (candidates paths dir images).
  - destruct (first_existing env paths dir images) as [p|].
    + destruct IH as (Hp & before & after & -> & Hbefore). split; [exact Hp|].
      exists (check_path_of paths dir s :: before), after. split; [done|].
      cbn [forallb]. by rewrite Ep, Hbefore.
    + cbn [forallb]. by rewrite Ep, IH.
Qed.

(** X19.  The reference image that is used exists: whatever is configured
    under [persona_reference_image] (a path, a list, anything else), the
    image resolved for the request is the first of the configured non-empty
    paths (relative ones taken from the data directory) that is on disk, so
    [generate_image] is never handed a path that is missing; when none is
    on disk, or nothing usable is configured, no reference image is used. *)
Theorem reference_image_is_the_first_on_disk (env : Env) (paths : Paths)
    (plugin_data_dir : option string) (persona_reference_image : PyVal) :
  let looked_for :=
    candidates paths plugin_data_dir (configured_images persona_reference_image) in
  match resolve_reference_image env paths plugin_data_dir persona_reference_image with
  | Some p =>
      path_exists env p = true /\
      exists before after,
        looked_for = before ++ p :: after /\
        forallb (fun q => negb (path_exists env q)) before = true
  | None => forallb (fun q => negb (path_exists env q)) looked_for = true
  end.
Proof.
  intros looked_for. subst looked_for. unfold resolve_reference_image, configured_images.
  destruct persona_reference_image as [| | | |p|images|];
    try (destruct (truthy _); done).
  - cbn [truthy candidates]. destruct (p =? "")%string; cbn [negb]; [done|].
    destruct (path_exists env (check_path_of paths plugin_data_dir p)) eqn:Ep.
    + split; [exact Ep|]. by exists [], [].
    + cbn [forallb]. by rewrite Ep.
  - destruct images as [|v images]; [done|].
    change (truthy (PList (v :: images))) with true. cbv iota.
    apply first_existing_spec.
Qed.

End main_spec.
